(** * SepsIA: the sepsis decision-support service (main.py)

    A shallow embedding of [main.py]: the reply parser
    [parse_gemini_response] with the three regular expressions it applies,
    the prompt renderer, the [/analyze] endpoint with the hosted model as an
    explicit collaborator, and the start-up configuration block.

    Python [str] values are sequences of Unicode code points, so a string is
    a list of code points here; string literals are written as UTF-8 text and
    decoded. *)

From Stdlib Require Import NArith ZArith Bool Lia String Ascii.
From Stdlib Require Import DecimalString SpecFloat List.
From Stdlib Require DecimalPos DecimalZ.
Import ListNotations.

Set Implicit Arguments.
Set Warnings "-register-all".

(** ** Strings *)

Module Str.

Definition char := N.
Definition str := list char.

Local Open Scope N_scope.

(** UTF-8 decoding of a literal of the development into code points. *)
Fixpoint utf8_decode (s : string) : str :=
  match s with
  | EmptyString => []
  | String a s1 =>
    let b := N_of_ascii a in
    if b <? 128 then b :: utf8_decode s1
    else
      match s1 with
      | EmptyString => []
      | String a2 s2 =>
        let b2 := N_of_ascii a2 mod 64 in
        if b <? 224 then ((b mod 32) * 64 + b2) :: utf8_decode s2
        else
          match s2 with
          | EmptyString => []
          | String a3 s3 =>
            let b3 := N_of_ascii a3 mod 64 in
            if b <? 240 then ((b mod 16) * 4096 + b2 * 64 + b3) :: utf8_decode s3
            else
              match s3 with
              | EmptyString => []
              | String a4 s4 =>
                let b4 := N_of_ascii a4 mod 64 in
                ((b mod 8) * 262144 + b2 * 4096 + b3 * 64 + b4) :: utf8_decode s4
              end
          end
      end
  end.

Definition U (s : string) : str := utf8_decode s.

Fixpoint eqb_str (a b : str) : bool :=
  match a, b with
  | [], [] => true
  | x :: a', y :: b' => (x =? y) && eqb_str a' b'
  | _, _ => false
  end.

(** Decimal digits of an integer: [str(n)] and [int.__repr__]. *)
Definition str_of_Z (z : Z) : str :=
  map N_of_ascii (list_ascii_of_string (NilZero.string_of_int (Z.to_int z))).

Definition dquote : str := [34].

(** [sub] is contained in [s] as a contiguous run: Python's [sub in s]. *)
Definition contains (s sub : str) : Prop :=
  exists l r, s = l ++ sub ++ r.

(** The slice [s[b:e]] for [0 <= b <= e]. *)
Definition slice (s : str) (b e : nat) : str :=
  firstn (e - b) (skipn b s).

(** *** [str.strip] *)

(** [Py_UNICODE_ISSPACE]: the code points [str.strip()] removes. *)
Definition py_isspace (c : char) : bool :=
  ((9 <=? c) && (c <=? 13)) || ((28 <=? c) && (c <=? 32))
  || (c =? 0x85) || (c =? 0xA0) || (c =? 0x1680)
  || ((0x2000 <=? c) && (c <=? 0x200A))
  || (c =? 0x2028) || (c =? 0x2029) || (c =? 0x202F)
  || (c =? 0x205F) || (c =? 0x3000).

Fixpoint lstrip_by (p : char -> bool) (s : str) : str :=
  match s with
  | [] => []
  | c :: s' => if p c then lstrip_by p s' else s
  end.

Definition rstrip_by (p : char -> bool) (s : str) : str :=
  rev (lstrip_by p (rev s)).

Definition strip_by (p : char -> bool) (s : str) : str :=
  rstrip_by p (lstrip_by p s).

(** [s.strip()] *)
Definition strip (s : str) : str := strip_by py_isspace s.

(** [s.strip(chars)] *)
Definition strip_chars (chars : str) (s : str) : str :=
  strip_by (fun c => existsb (N.eqb c) chars) s.

End Str.
Import Str.

(** ** The fragment of Python's [re] that the parser uses *)

Module Re.

Local Open Scope N_scope.

(** The flags of a [re.search] call: [re.DOTALL | re.IGNORECASE] in all
    three calls of the parser. *)
Record flags := { IGNORECASE : bool; DOTALL : bool }.

(** CPython's simple lower-case mapping ([sre_lower_unicode]), given on the
    code points whose image lies in Latin-1: every character of the three
    patterns is Latin-1, and a code point outside this table lowers to a
    code point outside Latin-1, which no pattern character equals. *)
Definition unicode_tolower (c : char) : char :=
  if (0x41 <=? c) && (c <=? 0x5A) then c + 32
  else if (0xC0 <=? c) && (c <=? 0xDE) && negb (c =? 0xD7) then c + 32
  else if c =? 0x130 then 0x69
  else if c =? 0x178 then 0xFF
  else if c =? 0x1E9E then 0xDF
  else if c =? 0x212A then 0x6B
  else if c =? 0x212B then 0xE5
  else c.

(** CPython's upper-case mapping ([sre_upper_unicode]) on the Latin-1
    characters whose upper case is one character; the compiler of patterns
    only asks it about pattern characters, which are all of that kind. *)
Definition unicode_toupper (c : char) : char :=
  if (0x61 <=? c) && (c <=? 0x7A) then c - 32
  else if (0xE0 <=? c) && (c <=? 0xFE) && negb (c =? 0xF7) then c - 32
  else if c =? 0xB5 then 0x39C
  else if c =? 0xFF then 0x178
  else c.

(** [_sre.unicode_iscased] *)
Definition unicode_iscased (c : char) : bool :=
  negb (c =? unicode_tolower c) || negb (c =? unicode_toupper c).

(** [_ignorecase_fixes] of the pattern compiler, for lower-case Latin-1
    keys: the characters that are not each other's lower case and still
    match each other (dotless i, long s, the Greek mu). *)
Definition ignorecase_fixes (lo : char) : list char :=
  if lo =? 0x69 then [0x131]
  else if lo =? 0x73 then [0x17F]
  else if lo =? 0xB5 then [0x3BC]
  else [].

(** Does the text character [x] match the pattern literal [c]?  Without
    IGNORECASE, or for an uncased literal, the opcode is LITERAL; for a
    cased one it is LITERAL_UNI_IGNORE on the lowered literal, or
    IN_UNI_IGNORE on the literal and its fixes. *)
Definition lit_match (f : flags) (c x : char) : bool :=
  if negb (IGNORECASE f) then x =? c
  else if negb (unicode_iscased c) then x =? c
  else
    let lo := unicode_tolower c in
    existsb (N.eqb (unicode_tolower x)) (lo :: ignorecase_fixes lo).

(** [.] matches every character with DOTALL, every one but a newline
    without. *)
Definition dot_match (f : flags) (x : char) : bool :=
  DOTALL f || negb (x =? 10).

(** Pattern syntax: what occurs in the three patterns of the parser. *)
Inductive regex : Type :=
| Lit (c : char)                 (* a literal character, escaped or not *)
| Eps                            (* the empty pattern *)
| Seq (r1 r2 : regex)            (* r1 r2 *)
| Alt (r1 r2 : regex)            (* r1|r2 *)
| DotStar (greedy : bool)        (* .*  and  .*? *)
| Group (r : regex)              (* ( r ), capturing group 1 *)
| LookAhead (r : regex)          (* (?= r ) *)
| EndZ.                          (* \Z *)

(** The literal text [s] as a pattern. *)
Definition lits (s : str) : regex :=
  fold_right (fun c r => Seq (Lit c) r) Eps s.

(** A span [(b, e)] of the searched string. *)
Definition span := (nat * nat)%type.

(** A successful run of the matcher: where it ended, and group 1. *)
Definition mres := (nat * option span)%type.

(** The continuation of a match: the position reached, the text from
    there, and what group 1 holds so far. *)
Definition cont := nat -> str -> option span -> option mres.

Local Close Scope N_scope.

(** [.*?] tries the rest of the pattern first and takes one more
    character only when that fails. *)
Fixpoint dotstar_lazy (f : flags) (pos : nat) (s : str) (g : option span)
    (k : cont) : option mres :=
  match k pos s g with
  | Some m => Some m
  | None =>
    match s with
    | [] => None
    | x :: s' => if dot_match f x then dotstar_lazy f (S pos) s' g k else None
    end
  end.

(** [.*] takes all it can and gives characters back one at a time. *)
Fixpoint dotstar_greedy (f : flags) (pos : nat) (s : str) (g : option span)
    (k : cont) : option mres :=
  match s with
  | [] => k pos s g
  | x :: s' =>
    if dot_match f x then
      match dotstar_greedy f (S pos) s' g k with
      | Some m => Some m
      | None => k pos s g
      end
    else k pos s g
  end.

(** The backtracking matcher: [rmatch f r pos s g k] matches [r] at
    position [pos], where the text still to read is [s], and hands over to
    [k]; the first success in the order of the engine is the result. *)
Fixpoint rmatch (f : flags) (r : regex) (pos : nat) (s : str)
    (g : option span) (k : cont) : option mres :=
  match r with
  | Lit c =>
    match s with
    | x :: s' => if lit_match f c x then k (S pos) s' g else None
    | [] => None
    end
  | Eps => k pos s g
  | Seq r1 r2 => rmatch f r1 pos s g (fun p s' g' => rmatch f r2 p s' g' k)
  | Alt r1 r2 =>
    match rmatch f r1 pos s g k with
    | Some m => Some m
    | None => rmatch f r2 pos s g k
    end
  | DotStar true => dotstar_greedy f pos s g k
  | DotStar false => dotstar_lazy f pos s g k
  | Group r1 => rmatch f r1 pos s g (fun p s' _ => k p s' (Some (pos, p)))
  | LookAhead r1 =>
    match rmatch f r1 pos s g (fun p _ g' => Some (p, g')) with
    | Some (_, g') => k pos s g'
    | None => None
    end
  | EndZ => match s with [] => k pos s g | _ :: _ => None end
  end.

Definition accept : cont := fun p _ g => Some (p, g).

(** A match object: the searched string, the span of the whole match and
    the span of group 1 when the group took part. *)
Record match_obj := {
  m_string : str;
  m_start : nat;
  m_end : nat;
  m_group1 : option span
}.

(** The scan of [re.search]: the leftmost position where the pattern
    matches. *)
Fixpoint search_from (f : flags) (r : regex) (text : str) (pos : nat)
    (s : str) : option match_obj :=
  match rmatch f r pos s None accept with
  | Some (e, g) =>
    Some {| m_string := text; m_start := pos; m_end := e; m_group1 := g |}
  | None =>
    match s with
    | [] => None
    | _ :: s' => search_from f r text (S pos) s'
    end
  end.

(** [re.search(pattern, text, flags)] *)
Definition search (r : regex) (text : str) (f : flags) : option match_obj :=
  search_from f r text 0 text.

(** [m.group(1)]: [None] when the group took no part in the match. *)
Definition group1 (m : match_obj) : option str :=
  match m_group1 m with
  | Some (b, e) => Some (slice (m_string m) b e)
  | None => None
  end.

End Re.
Import Re.

(** ** Exceptions, the hosted model's interface, and effects *)

Module Py.

(** A raised exception, with the text [str(e)] gives. *)
Inductive exn : Type :=
| Exception (cls : string) (msg : str).

Definition str_of_exn (e : exn) : str :=
  match e with Exception _ msg => msg end.

Inductive result (A : Type) : Type :=
| Ok (a : A)
| Raise (e : exn).

Arguments Ok {A} a.
Arguments Raise {A} e.

(** [genai.GenerationConfig(temperature=..., max_output_tokens=...)] *)
Record GenerationConfig := {
  temperature : spec_float;
  max_output_tokens : Z
}.

(** One entry of the safety settings: a dict with the two keys
    ["category"] and ["threshold"]. *)
Record SafetySetting := {
  category : str;
  threshold : str
}.

(** The arguments of one [model.generate_content] call. *)
Record llm_call := {
  call_model : str;
  call_prompt : str;
  call_generation_config : GenerationConfig;
  call_safety_settings : list SafetySetting
}.

(** What the program can do to the outside: lines printed, calls made to
    the hosted model, and the credential handed to [genai.configure]. *)
Record world := {
  stdout : list str;
  llm_calls : list llm_call;
  configured_api_key : option str
}.

(** Computations that may raise and that act on the world. *)
Definition M (A : Type) : Type := world -> result A * world.

Definition ret {A} (a : A) : M A := fun w => (Ok a, w).

Definition bind {A B} (m : M A) (k : A -> M B) : M B :=
  fun w =>
    match m w with
    | (Ok a, w') => k a w'
    | (Raise e, w') => (Raise e, w')
    end.

Definition raise {A} (e : exn) : M A := fun w => (Raise e, w).

(** [try: body  except Exception as e: handler e] *)
Definition try_except {A} (body : M A) (handler : exn -> M A) : M A :=
  fun w =>
    match body w with
    | (Ok a, w') => (Ok a, w')
    | (Raise e, w') => handler e w'
    end.

(** [print(line)] *)
Definition print (line : str) : M unit :=
  fun w =>
    (Ok tt, {| stdout := stdout w ++ [line];
               llm_calls := llm_calls w;
               configured_api_key := configured_api_key w |}).

End Py.
Import Py.

Declare Scope py_scope.
Delimit Scope py_scope with py.
Notation "x <- m ;; k" := (bind m (fun x => k))
  (at level 61, m at next level, right associativity) : py_scope.
Notation "m ;;; k" := (bind m (fun _ => k))
  (at level 61, right associativity) : py_scope.

(** ** The reply parser *)

Module Parser.

Local Open Scope py_scope.

Definition header1 : str := Eval vm_compute in U "**1. Análisis Breve:**".
Definition header2 : str := Eval vm_compute in U "**2. Justificación:**".
Definition header3 : str := Eval vm_compute in U "**3. Acciones Sugeridas:**".

(** [re.DOTALL | re.IGNORECASE] *)
Definition parse_flags : flags := {| IGNORECASE := true; DOTALL := true |}.

(** The pattern  \*\*1\. Análisis Breve:\*\*(.*?)(?=\*\*2\. Justificación:\*\*|\Z)  *)
Definition pattern_analisis : regex :=
  Seq (lits header1)
      (Seq (Group (DotStar false)) (LookAhead (Alt (lits header2) EndZ))).

(** The pattern  \*\*2\. Justificación:\*\*(.*?)(?=\*\*3\. Acciones Sugeridas:\*\*|\Z)  *)
Definition pattern_justificacion : regex :=
  Seq (lits header2)
      (Seq (Group (DotStar false)) (LookAhead (Alt (lits header3) EndZ))).

(** The pattern  \*\*3\. Acciones Sugeridas:\*\*  followed by group 1, a
    greedy dot-star that runs to the end of the text. *)
Definition pattern_acciones : regex :=
  Seq (lits header3) (Group (DotStar true)).

Definition placeholder_analisis : str :=
  Eval vm_compute in U "No se pudo parsear el análisis.".
Definition placeholder_justificacion : str :=
  Eval vm_compute in U "No se pudo parsear la justificación.".
Definition placeholder_acciones : str :=
  Eval vm_compute in U "No se pudieron parsear las acciones.".
Definition error_de_parseo : str := Eval vm_compute in U "Error de parseo.".

(** The dict the parser returns, and the response model of the endpoint. *)
Record AnalysisResponse := {
  analisis_breve : str;
  justificacion : str;
  acciones_sugeridas : str
}.

(** [g.strip()], then [.strip] of the two parenthesis characters, then
    [.strip()] again. *)
Definition clean (g : str) : str :=
  strip (strip_chars (U "()") (strip g)).

(** [m.group(1).strip().strip("()").strip() if m else placeholder];
    [group(1)] of a group that took no part is [None], on which [.strip]
    raises. *)
Definition clean_or (m : option match_obj) (placeholder : str) : M str :=
  match m with
  | Some mo =>
    match group1 mo with
    | Some g => ret (clean g)
    | None =>
      raise (Exception "AttributeError"
               (U "'NoneType' object has no attribute 'strip'"))
    end
  | None => ret placeholder
  end.

Section WithSearch.

(** The section-matching machinery, [re.search], as the parser sees it: a
    call that returns a match object or [None], or raises. *)
Variable re_search : regex -> str -> flags -> M (option match_obj).

(** The body of the [try]. *)
Definition parse_try (text : str) : M AnalysisResponse :=
  analisis <- re_search pattern_analisis text parse_flags ;;
  justificacion <- re_search pattern_justificacion text parse_flags ;;
  acciones <- re_search pattern_acciones text parse_flags ;;
  clean_analisis <- clean_or analisis placeholder_analisis ;;
  clean_justificacion <- clean_or justificacion placeholder_justificacion ;;
  clean_acciones <- clean_or acciones placeholder_acciones ;;
  ret {| analisis_breve := clean_analisis;
         justificacion := clean_justificacion;
         acciones_sugeridas := clean_acciones |}.

(** The [except Exception as e] branch: the raw text comes back in the
    first field. *)
Definition parse_except (text : str) (e : exn) : M AnalysisResponse :=
  print (U "Error al parsear la respuesta: " ++ str_of_exn e) ;;;
  ret {| analisis_breve := text;
         justificacion := error_de_parseo;
         acciones_sugeridas := error_de_parseo |}.

Definition parse_with (text : str) : M AnalysisResponse :=
  try_except (parse_try text) (parse_except text).

End WithSearch.

(** [parse_gemini_response], with the [re.search] of the library. *)
Definition parse_gemini_response (text : str) : M AnalysisResponse :=
  parse_with (fun r t f => ret (Re.search r t f)) text.

End Parser.
Import Parser.

(** ** JSON values and [json.dumps] *)

Module Json.

Local Open Scope N_scope.

(** What [json.loads] builds and [json.dumps] writes.  An object is a
    Python dict with string keys, in insertion order. *)
Inductive json : Type :=
| JNull
| JBool (b : bool)
| JInt (z : Z)
| JFloat (f : spec_float)
| JStr (s : str)
| JArr (l : list json)
| JObj (m : list (str * json)).

Definition hex_digit (n : N) : char :=
  if n <? 10 then 48 + n else 87 + n.

(** [ESCAPE_DCT] of [json.encoder]: what replaces a character that
    [ESCAPE] matches; every other character is written as it is
    ([ensure_ascii=False]). *)
Definition escape_char (c : char) : str :=
  if c =? 92 then [92; 92]
  else if c =? 34 then [92; 34]
  else if c =? 8 then [92; 98]
  else if c =? 12 then [92; 102]
  else if c =? 10 then [92; 110]
  else if c =? 13 then [92; 114]
  else if c =? 9 then [92; 116]
  else if c <? 32 then [92; 117; 48; 48; hex_digit (c / 16); hex_digit (c mod 16)]
  else [c].

(** [py_encode_basestring] *)
Definition encode_basestring (s : str) : str :=
  dquote ++ flat_map escape_char s ++ dquote.

Section Encoder.

(** [float.__repr__], the shortest decimal text that reads back as the
    same binary64 value; it belongs to the interpreter. *)
Variable float_repr : spec_float -> str.

(** [floatstr] with [allow_nan=True] *)
Definition floatstr (f : spec_float) : str :=
  match f with
  | S754_nan => U "NaN"
  | S754_infinity false => U "Infinity"
  | S754_infinity true => U "-Infinity"
  | _ => float_repr f
  end.

(** A newline and [indent * level] spaces. *)
Definition newline_indent (indent level : nat) : str :=
  10 :: repeat 32 (indent * level)%nat.

(** The chunks of a container, with the separator between them. *)
Fixpoint join (sep : str) (chunks : list str) : str :=
  match chunks with
  | [] => []
  | [x] => x
  | x :: chunks' => x ++ sep ++ join sep chunks'
  end.

(** [_iterencode] with an indent: items are separated by a comma and a
    new line, a key from its value by a colon and a space; an empty list
    or dict is written without a new line. *)
Fixpoint iterencode (indent level : nat) (o : json) : str :=
  match o with
  | JNull => U "null"
  | JBool true => U "true"
  | JBool false => U "false"
  | JInt z => str_of_Z z
  | JFloat f => floatstr f
  | JStr s => encode_basestring s
  | JArr l =>
    match l with
    | [] => U "[]"
    | _ :: _ =>
      [91] ++ newline_indent indent (S level)
      ++ join ([44] ++ newline_indent indent (S level))
              (map (iterencode indent (S level)) l)
      ++ newline_indent indent level ++ [93]
    end
  | JObj m =>
    match m with
    | [] => U "{}"
    | _ :: _ =>
      [123] ++ newline_indent indent (S level)
      ++ join ([44] ++ newline_indent indent (S level))
              (map (fun kv =>
                      encode_basestring (fst kv) ++ [58; 32]
                      ++ iterencode indent (S level) (snd kv)) m)
      ++ newline_indent indent level ++ [125]
    end
  end.

(** [json.dumps(o, indent=2, ensure_ascii=False)] *)
Definition json_dumps (o : json) : str := iterencode 2 0 o.

End Encoder.

(** Lookup of a key in an object. *)
Fixpoint get (m : list (str * json)) (k : str) : option json :=
  match m with
  | [] => None
  | (k', v) :: m' => if eqb_str k' k then Some v else get m' k
  end.

End Json.
Import Json.

(** ** The prompt template and [str.format] *)

Module Prompt.

Local Open Scope N_scope.

Definition prompt_base : str :=
  Eval vm_compute in
  (U "### ROL Y OBJETIVO ###
Actúa como un médico experto en cuidados intensivos y soporte de decisiones clínicas, especializado en la detección temprana de sepsis. Tu propósito es asistir a médicos y enfermeras calificados en un entorno de paciente internado.

### CONTEXTO ###
Estás analizando los datos de un paciente para identificar el riesgo de sepsis o shock séptico. Un modelo de IA interno (de la aplicación) ha proporcionado una puntuación de riesgo preliminar. Tu tarea es analizar la totalidad de los datos (clínicos, laboratorio, tendencias y comorbilidades) para proveer un análisis accionable e integrado.

### DATOS DEL PACIENTE ###
Analiza los siguientes datos. Presta especial atención a las combinaciones y tendencias que sugieran disfunción orgánica múltiple.

**1. Datos Actuales (Signos Vitales y Laboratorio Estándar):**
* Frecuencia Cardíaca: {FRECUENCIA_CARDIACA} (lat/min)
* Presión Arterial (Sistólica/Media): {PRESION_ARTERIAL} (mmHg)
* Frecuencia Respiratoria: {FRECUENCIA_RESPIRATORIA} (resp/min)
* Temperatura Corporal: {TEMPERATURA_CORPORAL} (°C)
* Saturación de Oxígeno (SpO2): {SATURACION_OXIGENO} (%)
* Procalcitonina (PCT): {PROCALCITONINA} (ng/mL)
* Lactato: {LACTATO} (mmol/L)
* Proteína C Reactiva (PCR): {PCR} (mg/L)
* Leucocitos: {LEUCOCITOS} (x10^9/L)

**2. Historial y Contexto (Formato Estructurado):**
* Comorbilidades Conocidas (Array JSON): {ARRAY_JSON_COMORBILIDADES}
* Patologías Presentes (String): "
   ++ dquote ++
   U "{TEXTO_PATOLOGIAS_PRESENTES}"
   ++ dquote ++
   U "
* Síntomas Diarios Reportados (String): "
   ++ dquote ++
   U "{TEXTO_SINTOMAS_DIARIOS}"
   ++ dquote ++
   U "

**3. Datos de Tendencia y Modelo Interno:**
* Valores Previos (Objeto JSON): {OBJETO_JSON_VALORES_PREVIOS}
* Puntuación de Riesgo de Sepsis (Modelo IA Interno): {PORCENTAJE_IA}%

### INSTRUCCIONES DE ANÁLIS... (etc.) ...###

### FORMATO DE RESPUESTA OBLIGATORIO ###
Proporciona tu respuesta estrictamente en el siguiente formato de 3 secciones, respetando los límites de líneas:

**1. Análisis Breve:**
(Resumen conciso del estado y riesgo. **MÁXIMO 2 LÍNEAS.**)

**2. Justificación:**
(Explicación concisa. Enfocarse *solo* en los 2-3 factores críticos (ej. "
   ++ dquote ++
   U "Hipotensión + Lactato elevado"
   ++ dquote ++
   U ") que justifican el análisis. **MÁXIMO 5 LÍNEAS.**)

**3. Acciones Sugeridas:**
(Lista de 3-4 acciones *más urgentes* y priorizadas. Sin explicaciones. **MÁXIMO 5 LÍNEAS en total para esta sección.**)
").

(** A keyword argument of [format]: the fields of a patient are ints,
    floats and strings. *)
Inductive pyval : Type :=
| VInt (z : Z)
| VFloat (f : spec_float)
| VStr (s : str).

Fixpoint kw_get (kwargs : list (str * pyval)) (name : str) : option pyval :=
  match kwargs with
  | [] => None
  | (n, v) :: kwargs' => if eqb_str n name then Some v else kw_get kwargs' name
  end.

(** Characters that end a plain field name or start what the template
    does not use: a nested brace, a format spec, a conversion, an
    attribute or an index. *)
Definition field_special (c : char) : bool :=
  (c =? 123) || (c =? 58) || (c =? 33) || (c =? 46) || (c =? 91).

(** One character of the [repr] of a string written between [quote]s. *)
Definition repr_char (quote c : char) : str :=
  if c =? 92 then [92; 92]
  else if c =? quote then [92; quote]
  else if c =? 9 then [92; 116]
  else if c =? 10 then [92; 110]
  else if c =? 13 then [92; 114]
  else if (c <? 32) || ((127 <=? c) && (c <=? 160)) || (c =? 173) then
    [92; 120; hex_digit (c / 16); hex_digit (c mod 16)]
  else [c].

(** [repr(s)] for a string of Latin-1 characters: between single quotes,
    or double quotes when [s] has a single quote and no double quote, with
    the backslash, the quote and the characters that do not print
    escaped. *)
Definition py_repr (s : str) : str :=
  let quote :=
    if existsb (N.eqb 39) s && negb (existsb (N.eqb 34) s) then 34 else 39 in
  [quote] ++ flat_map (repr_char quote) s ++ [quote].

(** [KeyError(key)]: its text, [str(e)], is the [repr] of the key. *)
Definition key_error (key : str) : exn := Exception "KeyError" (py_repr key).

Section Format.

Variable float_repr : spec_float -> str.

(** [format(v, '')], which is [str(v)] for these types. *)
Definition py_str (v : pyval) : str :=
  match v with
  | VInt z => str_of_Z z
  | VFloat f => float_repr f
  | VStr s => s
  end.

Definition prepend (s : str) (r : result str) : result str :=
  match r with
  | Ok t => Ok (s ++ t)
  | Raise e => Raise e
  end.

(** The scan of [str.format] over the template, left to right: literal
    text, doubled braces, and replacement fields [{NAME}] looked up among
    the keyword arguments.  [field] is [None] in literal text and holds
    the name read so far, reversed, inside braces.  Values are written as
    they are and never scanned again. *)
Fixpoint format_scan (kwargs : list (str * pyval)) (t : str)
    (field : option str) : result str :=
  match t with
  | [] =>
    match field with
    | None => Ok []
    | Some _ =>
      Raise (Exception "ValueError" (U "expected '}' before end of string"))
    end
  | c :: t' =>
    match field with
    | None =>
      if c =? 123 then
        match t' with
        | 123 :: t'' => prepend [123] (format_scan kwargs t'' None)
        | _ => format_scan kwargs t' (Some [])
        end
      else if c =? 125 then
        match t' with
        | 125 :: t'' => prepend [125] (format_scan kwargs t'' None)
        | _ =>
          Raise (Exception "ValueError"
                   (U "Single '}' encountered in format string"))
        end
      else prepend [c] (format_scan kwargs t' None)
    | Some acc =>
      if c =? 125 then
        match kw_get kwargs (rev acc) with
        | Some v => prepend (py_str v) (format_scan kwargs t' None)
        | None => Raise (key_error (rev acc))
        end
      else if field_special c then
        Raise (Exception "ValueError" (U "unsupported replacement field"))
      else format_scan kwargs t' (Some (c :: acc))
    end
  end.

(** [template.format] applied to the keyword arguments. *)
Definition format (template : str) (kwargs : list (str * pyval))
    : result str :=
  format_scan kwargs template None.

End Format.

End Prompt.
Import Prompt.

(** ** The service: configuration, request validation and the endpoint *)

Module Service.

Local Open Scope py_scope.

(** [class PatientData(BaseModel)] *)
Record PatientData := {
  frecuencia_cardiaca : Z;
  presion_arterial : str;
  frecuencia_respiratoria : Z;
  temperatura_corporal : spec_float;
  saturacion_oxigeno : Z;
  procalcitonina : spec_float;
  lactato : spec_float;
  pcr : spec_float;
  leucocitos : spec_float;
  array_json_comorbilidades : list str;
  texto_patologias_presentes : str;
  texto_sintomas_diarios : str;
  objeto_json_valores_previos : list (str * json);
  porcentaje_ia : Z
}.

(** The binary64 value of the literal [0.2]. *)
Definition float_0_2 : spec_float := S754_finite false 7205759403792794 (-55).

Definition BLOCK_NONE : str := Eval vm_compute in U "BLOCK_NONE".

Definition safety_settings_config : list SafetySetting :=
  [ {| category := U "HARM_CATEGORY_HARASSMENT"; threshold := BLOCK_NONE |};
    {| category := U "HARM_CATEGORY_HATE_SPEECH"; threshold := BLOCK_NONE |};
    {| category := U "HARM_CATEGORY_SEXUALLY_EXPLICIT"; threshold := BLOCK_NONE |};
    {| category := U "HARM_CATEGORY_DANGEROUS_CONTENT"; threshold := BLOCK_NONE |} ].

Definition generation_config : GenerationConfig :=
  {| temperature := float_0_2; max_output_tokens := 4096 |}.

(** [genai.GenerativeModel('gemini-2.0-flash')] *)
Definition model : str := Eval vm_compute in U "gemini-2.0-flash".

(** *** Start-up *)

(** Truth value of [not api_key]: [None] and the empty string are
    falsy. *)
Definition py_not (o : option str) : bool :=
  match o with
  | None => true
  | Some [] => true
  | Some (_ :: _) => false
  end.

(** [genai.configure(api_key=api_key)] *)
Definition genai_configure (api_key : option str) : M unit :=
  fun w =>
    (Ok tt, {| stdout := stdout w;
               llm_calls := llm_calls w;
               configured_api_key := api_key |}).

(** The configuration block at import time; [getenv] is [os.getenv]
    after [load_dotenv()]. *)
Definition configure_gemini (getenv : str -> option str) : M unit :=
  try_except
    (let api_key := getenv (U "GOOGLE_API_KEY") in
     if py_not api_key then
       raise (Exception "ValueError"
                (U "No se encontró la GOOGLE_API_KEY en las variables de entorno."))
     else genai_configure api_key)
    (fun e => print (U "Error al configurar Gemini: " ++ str_of_exn e)).

(** What importing the module leaves behind: the application with its
    routes, and the model handle. *)
Record application := {
  app_title : str;
  app_version : str;
  app_routes : list (string * str);
  app_model : str
}.

(** The module body, top to bottom. *)
Definition main_module (getenv : str -> option str) : M application :=
  configure_gemini getenv ;;;
  ret {| app_title := U "API de Asistente de Decisión Clínica (Sepsis)";
         app_version := U "1.0.0";
         app_routes := [("POST"%string, U "/analyze"); ("GET"%string, U "/")];
         app_model := model |}.

(** *** The endpoint *)

(** The reply object of the hosted model; reading [.text] may raise. *)
Record GenerateContentResponse := { text : result str }.

Definition lift {A} (r : result A) : M A := fun w => (r, w).

Section Endpoint.

Variable float_repr : spec_float -> str.

(** The hosted model: what [model.generate_content] gives for a call, a
    reply or an exception. *)
Variable generate_content : llm_call -> result GenerateContentResponse.

(** A call to the hosted model is recorded in the world. *)
Definition call_generate_content (c : llm_call)
    : M GenerateContentResponse :=
  fun w =>
    (generate_content c,
     {| stdout := stdout w;
        llm_calls := llm_calls w ++ [c];
        configured_api_key := configured_api_key w |}).

(** The keyword arguments of [prompt_base.format]. *)
Definition prompt_kwargs (data : PatientData) : list (str * pyval) :=
  [ (U "FRECUENCIA_CARDIACA", VInt (frecuencia_cardiaca data));
    (U "PRESION_ARTERIAL", VStr (presion_arterial data));
    (U "FRECUENCIA_RESPIRATORIA", VInt (frecuencia_respiratoria data));
    (U "TEMPERATURA_CORPORAL", VFloat (temperatura_corporal data));
    (U "SATURACION_OXIGENO", VInt (saturacion_oxigeno data));
    (U "PROCALCITONINA", VFloat (procalcitonina data));
    (U "LACTATO", VFloat (lactato data));
    (U "PCR", VFloat (pcr data));
    (U "LEUCOCITOS", VFloat (leucocitos data));
    (U "ARRAY_JSON_COMORBILIDADES",
       VStr (json_dumps float_repr
               (JArr (map JStr (array_json_comorbilidades data)))));
    (U "TEXTO_PATOLOGIAS_PRESENTES", VStr (texto_patologias_presentes data));
    (U "TEXTO_SINTOMAS_DIARIOS", VStr (texto_sintomas_diarios data));
    (U "OBJETO_JSON_VALORES_PREVIOS",
       VStr (json_dumps float_repr
               (JObj (objeto_json_valores_previos data))));
    (U "PORCENTAJE_IA", VInt (porcentaje_ia data)) ].

(** The prompt renderer: the two [json.dumps] and [prompt_base.format]. *)
Definition render_prompt (data : PatientData) : result str :=
  format float_repr prompt_base (prompt_kwargs data).

(** The arguments of the one call of the endpoint:
    [model.generate_content(prompt_final, generation_config=...,
    safety_settings=...)]. *)
Definition analyze_call (prompt_final : str) : llm_call :=
  {| call_model := model;
     call_prompt := prompt_final;
     call_generation_config := generation_config;
     call_safety_settings := safety_settings_config |}.

(** The body of the [try] of the endpoint. *)
Definition analyze_try (data : PatientData) : M AnalysisResponse :=
  prompt_final <- lift (render_prompt data) ;;
  response <- call_generate_content (analyze_call prompt_final) ;;
  response_text <- lift (text response) ;;
  parsed_response <- parse_gemini_response response_text ;;
  ret parsed_response.

(** An HTTP response of the service. *)
Inductive http_response : Type :=
| Response200 (body : AnalysisResponse)
| ResponseError (status_code : Z) (detail : str)
| ResponseValidationError.

Definition status_of (r : http_response) : Z :=
  match r with
  | Response200 _ => 200
  | ResponseError c _ => c
  | ResponseValidationError => 422
  end.

(** [analyze_patient_endpoint]: the [except Exception as e] branch prints
    and raises [HTTPException(status_code=500, detail=...)], which the
    framework turns into the error response. *)
Definition analyze_patient_endpoint (data : PatientData) : M http_response :=
  try_except
    (parsed <- analyze_try data ;; ret (Response200 parsed))
    (fun e =>
       print (U "Error en el endpoint /analyze_patient: " ++ str_of_exn e) ;;;
       ret (ResponseError 500
              (U "Error al procesar la solicitud: " ++ str_of_exn e))).

End Endpoint.

End Service.
Import Service.

(** ** The request boundary *)

Module Boundary.

Local Open Scope py_scope.

(** The declared type of a field of [PatientData]. *)
Inductive ftype : Type := TInt | TFloat | TStr | TListStr | TDict.

(** The fields of [class PatientData], all declared with [Field(...)],
    that is, required. *)
Definition patient_fields : list (str * ftype) :=
  [ (U "frecuencia_cardiaca", TInt);
    (U "presion_arterial", TStr);
    (U "frecuencia_respiratoria", TInt);
    (U "temperatura_corporal", TFloat);
    (U "saturacion_oxigeno", TInt);
    (U "procalcitonina", TFloat);
    (U "lactato", TFloat);
    (U "pcr", TFloat);
    (U "leucocitos", TFloat);
    (U "array_json_comorbilidades", TListStr);
    (U "texto_patologias_presentes", TStr);
    (U "texto_sintomas_diarios", TStr);
    (U "objeto_json_valores_previos", TDict);
    (U "porcentaje_ia", TInt) ].

Definition is_JStr (v : json) : bool :=
  match v with JStr _ => true | _ => false end.

(** Modelled from the spec: the request validator is the web framework's,
    not part of the repository; the spec has it enforce field presence and
    primitive types (integers, floats, strings, list of strings, untyped
    nested map).  A JSON integer is taken for a float field, JSON having
    one kind of number. *)
Definition has_type (t : ftype) (v : json) : bool :=
  match t, v with
  | TInt, JInt _ => true
  | TFloat, JFloat _ => true
  | TFloat, JInt _ => true
  | TStr, JStr _ => true
  | TListStr, JArr l => forallb is_JStr l
  | TDict, JObj _ => true
  | _, _ => false
  end.

Definition field_ok (m : list (str * json)) (ft : str * ftype) : bool :=
  match get m (fst ft) with
  | Some v => has_type (snd ft) v
  | None => false
  end.

Definition conforms (m : list (str * json)) : bool :=
  forallb (field_ok m) patient_fields.

(** [float(n)] for an integer [n], rounded to binary64. *)
Definition float_of_Z (z : Z) : spec_float := binary_normalize 53 1024 z 0 false.

Definition as_int (v : option json) : Z :=
  match v with Some (JInt z) => z | _ => 0%Z end.

Definition as_float (v : option json) : spec_float :=
  match v with
  | Some (JFloat f) => f
  | Some (JInt z) => float_of_Z z
  | _ => S754_zero false
  end.

Definition as_str (v : option json) : str :=
  match v with Some (JStr s) => s | _ => [] end.

Definition as_list_str (v : option json) : list str :=
  match v with
  | Some (JArr l) => map (fun x => as_str (Some x)) l
  | _ => []
  end.

Definition as_dict (v : option json) : list (str * json) :=
  match v with Some (JObj m) => m | _ => [] end.

(** Modelled from the spec: validation of a request body against
    [PatientData]; [None] stands for the validation error. *)
Definition validate_patient (body : json) : option PatientData :=
  match body with
  | JObj m =>
    if conforms m then
      Some {| frecuencia_cardiaca := as_int (get m (U "frecuencia_cardiaca"));
              presion_arterial := as_str (get m (U "presion_arterial"));
              frecuencia_respiratoria := as_int (get m (U "frecuencia_respiratoria"));
              temperatura_corporal := as_float (get m (U "temperatura_corporal"));
              saturacion_oxigeno := as_int (get m (U "saturacion_oxigeno"));
              procalcitonina := as_float (get m (U "procalcitonina"));
              lactato := as_float (get m (U "lactato"));
              pcr := as_float (get m (U "pcr"));
              leucocitos := as_float (get m (U "leucocitos"));
              array_json_comorbilidades :=
                as_list_str (get m (U "array_json_comorbilidades"));
              texto_patologias_presentes :=
                as_str (get m (U "texto_patologias_presentes"));
              texto_sintomas_diarios := as_str (get m (U "texto_sintomas_diarios"));
              objeto_json_valores_previos :=
                as_dict (get m (U "objeto_json_valores_previos"));
              porcentaje_ia := as_int (get m (U "porcentaje_ia")) |}
    else None
  | _ => None
  end.

Section Route.

Variable float_repr : spec_float -> str.
Variable generate_content : llm_call -> result GenerateContentResponse.

(** Modelled from the spec: the route [POST /analyze] as the framework
    serves it; the body is validated first and the handler runs only on a
    valid body. *)
Definition post_analyze (body : json) : M http_response :=
  match validate_patient body with
  | Some data => analyze_patient_endpoint float_repr generate_content data
  | None => ret ResponseValidationError
  end.

End Route.

End Boundary.
Import Boundary.

(** ** What the claims speak of: header occurrences and trimming *)

Module HeaderSpec.

Local Open Scope N_scope.

(** The text [s] begins with characters that the literal [h] matches. *)
Fixpoint starts_with (f : flags) (h s : str) : bool :=
  match h with
  | [] => true
  | c :: h' =>
    match s with
    | x :: s' => lit_match f c x && starts_with f h' s'
    | [] => false
    end
  end.

Definition is_empty (s : str) : bool :=
  match s with [] => true | _ :: _ => false end.

(** The offset of the first occurrence of [h] in [s]. *)
Fixpoint find_header (f : flags) (h s : str) : option nat :=
  if starts_with f h s then Some 0%nat
  else
    match s with
    | [] => None
    | _ :: s' => option_map S (find_header f h s')
    end.

(** How many characters of [s] come before the first occurrence of [h],
    or before the end of [s] when there is none. *)
Fixpoint until_header (f : flags) (h s : str) : nat :=
  match s with
  | [] => 0%nat
  | _ :: s' => if starts_with f h s then 0%nat else S (until_header f h s')
  end.

(** The header [h] occurs in the reply [t] at offset [n], in any letter
    case the patterns accept. *)
Definition occurs_at (h t : str) (n : nat) : Prop :=
  starts_with parse_flags h (skipn n t) = true.

(** The header [h] does not occur in [t]. *)
Definition absent (h t : str) : Prop :=
  forall n, ~ occurs_at h t n.

(** No occurrence of [h] in [t] starts before offset [n]. *)
Definition none_before (h t : str) (n : nat) : Prop :=
  forall m, (m < n)%nat -> ~ occurs_at h t m.

(** A character that the cleaning of a section may remove. *)
Definition removable (c : char) : bool :=
  py_isspace c || (c =? 40) || (c =? 41).

(** [r] is [g] trimmed: only white space and parentheses were taken off
    the two ends, and no white space is left at either end. *)
Definition trimmed_of (g r : str) : Prop :=
  exists l t,
    g = l ++ r ++ t
    /\ forallb removable l = true
    /\ forallb removable t = true
    /\ (forall c r', r = c :: r' -> py_isspace c = false)
    /\ (forall c r', r = r' ++ [c] -> py_isspace c = false).

(** [x] is [c] or [c] in the other letter case. *)
Definition case_variant_char (c x : char) : bool :=
  existsb (N.eqb x) [c; unicode_tolower c; unicode_toupper c].

(** [v] is [h] up to letter case. *)
Fixpoint case_variant (h v : str) : bool :=
  match h, v with
  | [], [] => true
  | c :: h', x :: v' => case_variant_char c x && case_variant h' v'
  | _, _ => false
  end.

(** The spans of group 1 that the three searches of the parser find. *)
Definition group_span (r : regex) (text : str) : option span :=
  match Re.search r text parse_flags with
  | Some m => m_group1 m
  | None => None
  end.

(** The span [(b, e)] keeps clear of the [n] characters from offset [p]. *)
Definition clear_of (p n : nat) (sp : option span) : Prop :=
  match sp with
  | Some (b, e) => (e <= p \/ p + n <= b)%nat
  | None => True
  end.

(** The world before anything happened. *)
Definition w0 : world :=
  {| stdout := []; llm_calls := []; configured_api_key := None |}.

End HeaderSpec.
Import HeaderSpec.

(** ** The parser in closed form *)

Module ParserSpec.

(** The look-ahead of the first two patterns holds at [s]: the next
    header starts there, or the text ends there. *)
Definition la_ok (f : flags) (h s : str) : bool :=
  starts_with f h s || is_empty s.

(** What group 1 of a lazy pattern holds: the text after the first
    occurrence of [h], up to the first occurrence of [next] after it or to
    the end of the text. *)
Definition captured_lazy (h next text : str) : option str :=
  match find_header parse_flags h text with
  | Some i =>
    let rest := skipn (i + length h) text in
    Some (firstn (until_header parse_flags next rest) rest)
  | None => None
  end.

(** What group 1 of the last pattern holds: all the text after the first
    occurrence of [h]. *)
Definition captured_greedy (h text : str) : option str :=
  match find_header parse_flags h text with
  | Some i => Some (skipn (i + length h) text)
  | None => None
  end.

Definition cleaned (o : option str) (placeholder : str) : str :=
  match o with
  | Some g => clean g
  | None => placeholder
  end.

(** The three fields as functions of the reply. *)
Definition parsed (text : str) : AnalysisResponse :=
  {| analisis_breve :=
       cleaned (captured_lazy header1 header2 text) placeholder_analisis;
     justificacion :=
       cleaned (captured_lazy header2 header3 text) placeholder_justificacion;
     acciones_sugeridas :=
       cleaned (captured_greedy header3 text) placeholder_acciones |}.

(** The lazy pattern for a header and the one that follows it. *)
Definition lazy_pattern (h next : str) : regex :=
  Seq (lits h) (Seq (Group (DotStar false)) (LookAhead (Alt (lits next) EndZ))).

Definition greedy_pattern (h : str) : regex :=
  Seq (lits h) (Group (DotStar true)).

(** The characters of the three headers. *)
Definition header_alphabet : list char := header1 ++ header2 ++ header3.

(** The patterns cannot tell [x] from [y]. *)
Definition same_to_patterns (x y : char) : bool :=
  forallb (fun c => Bool.eqb (lit_match parse_flags c x) (lit_match parse_flags c y))
          header_alphabet.

End ParserSpec.
Import ParserSpec.

(** ** Replies with all three headers, and with one header absent *)

Module Replies.

(** A reply with the three headers in order: [pre] comes first, then each
    header with the text that follows it. *)
Definition three_sections (pre a j c : str) : str :=
  pre ++ header1 ++ a ++ header2 ++ j ++ header3 ++ c.

(** Which header a reply lacks. *)
Inductive missing : Type := Missing1 | Missing2 | Missing3.

Definition missing_header (k : missing) : str :=
  match k with
  | Missing1 => header1
  | Missing2 => header2
  | Missing3 => header3
  end.

(** The two headers a reply still has, in order. *)
Definition first_present (k : missing) : str :=
  match k with
  | Missing1 => header2
  | Missing2 => header1
  | Missing3 => header1
  end.

Definition second_present (k : missing) : str :=
  match k with
  | Missing1 => header3
  | Missing2 => header3
  | Missing3 => header2
  end.

(** A reply with the two headers it has: [x] follows the first and [y]
    the second. *)
Definition two_sections (k : missing) (pre x y : str) : str :=
  pre ++ first_present k ++ x ++ second_present k ++ y.

(** What the claim promises for such a reply: the placeholder for the
    absent section, and for the other two the text between the headers
    that are there (the last one running to the end). *)
Definition claimed_two_sections (k : missing) (x y : str) : AnalysisResponse :=
  match k with
  | Missing1 =>
    {| analisis_breve := placeholder_analisis;
       justificacion := clean x;
       acciones_sugeridas := clean y |}
  | Missing2 =>
    {| analisis_breve := clean x;
       justificacion := placeholder_justificacion;
       acciones_sugeridas := clean y |}
  | Missing3 =>
    {| analisis_breve := clean x;
       justificacion := clean y;
       acciones_sugeridas := placeholder_acciones |}
  end.

(** What the parser returns for it: a section whose own closing header is
    absent runs to the end of the reply, so without header 2 the first
    field takes in header 3 and all that follows. *)
Definition parsed_two_sections (k : missing) (x y : str) : AnalysisResponse :=
  match k with
  | Missing1 =>
    {| analisis_breve := placeholder_analisis;
       justificacion := clean x;
       acciones_sugeridas := clean y |}
  | Missing2 =>
    {| analisis_breve := clean (x ++ header3 ++ y);
       justificacion := placeholder_justificacion;
       acciones_sugeridas := clean y |}
  | Missing3 =>
    {| analisis_breve := clean x;
       justificacion := clean y;
       acciones_sugeridas := placeholder_acciones |}
  end.

(** The result of the [except] branch. *)
Definition fallback (text : str) : AnalysisResponse :=
  {| analisis_breve := text;
     justificacion := error_de_parseo;
     acciones_sugeridas := error_de_parseo |}.


End Replies.
Import Replies.

(** ** Texts the patterns cannot tell apart *)

Module Alike.

(** Two texts of the same length whose characters the patterns treat
    alike, position by position. *)
Definition alike (s s' : str) : Prop :=
  Forall2 (fun x y => same_to_patterns x y = true) s s'.

Definition headers : list str := [header1; header2; header3].

End Alike.
Import Alike.

(** ** Request bodies the validator turns down *)

Module BodySpec.

(** The value a request body gives for a field. *)
Definition field_of (body : json) (name : str) : option json :=
  match body with
  | JObj m => get m name
  | _ => None
  end.

(** The body lacks the field [name], or gives it a value of another
    type than [t]. *)
Definition field_missing_or_mistyped (body : json) (name : str) (t : ftype)
    : Prop :=
  match field_of body name with
  | None => True
  | Some v => has_type t v = false
  end.

(** The world after the endpoint made its call with the prompt [p] and
    printed [lines]. *)
Definition after_call (w : world) (p : str) (lines : list str) : world :=
  {| stdout := stdout w ++ lines;
     llm_calls := llm_calls w ++ [analyze_call p];
     configured_api_key := configured_api_key w |}.

Definition missing_key_warning : str :=
  Eval vm_compute in
  U "Error al configurar Gemini: No se encontró la GOOGLE_API_KEY en las variables de entorno.".

End BodySpec.
Import BodySpec.

(** ** JSON texts *)

Module JsonGrammar.

Local Open Scope N_scope.

(** Insignificant white space of JSON: space, tab, line feed, carriage
    return. *)
Definition ws_char (c : char) : bool :=
  (c =? 32) || (c =? 9) || (c =? 10) || (c =? 13).

Definition ws (s : str) : Prop := forallb ws_char s = true.

Definition is_digit (c : char) : bool := (48 <=? c) && (c <=? 57).

Fixpoint skip_digits (s : str) : str :=
  match s with
  | [] => []
  | c :: s' => if is_digit c then skip_digits s' else s
  end.

(** An optional exponent, then the end of the number. *)
Definition exp_part (s : str) : bool :=
  match s with
  | [] => true
  | c :: s1 =>
    if (c =? 101) || (c =? 69) then
      let s2 :=
        match s1 with
        | d :: s' => if (d =? 43) || (d =? 45) then s' else s1
        | [] => s1
        end in
      match s2 with
      | d :: s3 => is_digit d && is_empty (skip_digits s3)
      | [] => false
      end
    else false
  end.

(** An optional fraction, then the rest. *)
Definition frac_part (s : str) : bool :=
  match s with
  | c :: d :: s' =>
    if c =? 46 then is_digit d && exp_part (skip_digits s') else exp_part s
  | _ => exp_part s
  end.

(** The number syntax of JSON: an optional minus, an integer part without
    a leading zero, an optional fraction and an optional exponent. *)
Definition json_number (s : str) : bool :=
  let s1 :=
    match s with
    | c :: s' => if c =? 45 then s' else s
    | [] => s
    end in
  match s1 with
  | [] => false
  | c :: s2 =>
    if c =? 48 then frac_part s2
    else if is_digit c then frac_part (skip_digits s2)
    else false
  end.

(** The characters of a decimal numeral. *)
Definition digit_chars (d : Decimal.uint) : str :=
  map N_of_ascii (list_ascii_of_string (NilEmpty.string_of_uint d)).

(** The integer a decimal text stands for. *)
Definition Z_of_str (s : str) : option Z :=
  option_map Z.of_int
    (NilZero.int_of_string (string_of_list_ascii (map ascii_of_N s))).

(** The character a two-character escape stands for. *)
Definition short_escape (e : char) : option char :=
  if e =? 34 then Some 34
  else if e =? 92 then Some 92
  else if e =? 47 then Some 47
  else if e =? 98 then Some 8
  else if e =? 102 then Some 12
  else if e =? 110 then Some 10
  else if e =? 114 then Some 13
  else if e =? 116 then Some 9
  else None.

Definition hex_value (c : char) : option N :=
  if is_digit c then Some (c - 48)
  else if (97 <=? c) && (c <=? 102) then Some (c - 87)
  else if (65 <=? c) && (c <=? 70) then Some (c - 55)
  else None.

(** The code point of a [\u] escape with four hexadecimal digits. *)
Definition hex4 (h1 h2 h3 h4 : char) : option char :=
  match hex_value h1, hex_value h2, hex_value h3, hex_value h4 with
  | Some a, Some b, Some c, Some d => Some (((a * 16 + b) * 16 + c) * 16 + d)
  | _, _, _, _ => None
  end.

(** A character that may stand unescaped inside a JSON string. *)
Definition unescaped (c : char) : bool :=
  (32 <=? c) && negb (c =? 34) && negb (c =? 92).

(** [json_chars b s]: [b] is the inside of a JSON string literal that
    stands for the string [s]. *)
Inductive json_chars : str -> str -> Prop :=
| JC_nil : json_chars [] []
| JC_plain c b s :
    unescaped c = true -> json_chars b s -> json_chars (c :: b) (c :: s)
| JC_escape e c b s :
    short_escape e = Some c -> json_chars b s ->
    json_chars (92 :: e :: b) (c :: s)
| JC_unicode h1 h2 h3 h4 c b s :
    hex4 h1 h2 h3 h4 = Some c -> json_chars b s ->
    json_chars (92 :: 117 :: h1 :: h2 :: h3 :: h4 :: b) (c :: s).

(** Finite floats: the ones JSON has a text for. *)
Definition is_finite (f : spec_float) : bool :=
  match f with
  | S754_zero _ => true
  | S754_finite _ _ _ => true
  | _ => false
  end.

Fixpoint finite_floats (v : json) : bool :=
  match v with
  | JFloat f => is_finite f
  | JArr l => forallb finite_floats l
  | JObj m => forallb (fun kv => finite_floats (snd kv)) m
  | _ => true
  end.

Section Grammar.

Variable float_repr : spec_float -> str.

(** [json_text s v]: the text [s] is JSON and stands for the value [v].
    A float is written as its [repr], which reads back as the same
    float. *)
Inductive json_text : str -> json -> Prop :=
| JT_null : json_text [110; 117; 108; 108] JNull
| JT_true : json_text [116; 114; 117; 101] (JBool true)
| JT_false : json_text [102; 97; 108; 115; 101] (JBool false)
| JT_int s z :
    json_number s = true -> Z_of_str s = Some z -> json_text s (JInt z)
| JT_float s f :
    json_number s = true -> s = float_repr f -> json_text s (JFloat f)
| JT_str b s :
    json_chars b s -> json_text ([34] ++ b ++ [34]) (JStr s)
| JT_arr_empty w :
    ws w -> json_text ([91] ++ w ++ [93]) (JArr [])
| JT_arr body l :
    json_elements body l -> json_text ([91] ++ body ++ [93]) (JArr l)
| JT_obj_empty w :
    ws w -> json_text ([123] ++ w ++ [125]) (JObj [])
| JT_obj body m :
    json_members body m -> json_text ([123] ++ body ++ [125]) (JObj m)
with json_elements : str -> list json -> Prop :=
| JE_one w1 s v w2 :
    ws w1 -> json_text s v -> ws w2 -> json_elements (w1 ++ s ++ w2) [v]
| JE_cons w1 s v w2 rest l :
    ws w1 -> json_text s v -> ws w2 -> json_elements rest l ->
    json_elements (w1 ++ s ++ w2 ++ [44] ++ rest) (v :: l)
with json_members : str -> list (str * json) -> Prop :=
| JM_one w1 kb k w2 w3 s v w4 :
    ws w1 -> json_chars kb k -> ws w2 -> ws w3 -> json_text s v -> ws w4 ->
    json_members (w1 ++ [34] ++ kb ++ [34] ++ w2 ++ [58] ++ w3 ++ s ++ w4)
                 [(k, v)]
| JM_cons w1 kb k w2 w3 s v w4 rest m :
    ws w1 -> json_chars kb k -> ws w2 -> ws w3 -> json_text s v -> ws w4 ->
    json_members rest m ->
    json_members (w1 ++ [34] ++ kb ++ [34] ++ w2 ++ [58] ++ w3 ++ s ++ w4
                  ++ [44] ++ rest)
                 ((k, v) :: m).

End Grammar.

Section Induction.

Variable P : json -> Prop.
Hypothesis Hnull : P JNull.
Hypothesis Hbool : forall b, P (JBool b).
Hypothesis Hint : forall z, P (JInt z).
Hypothesis Hfloat : forall f, P (JFloat f).
Hypothesis Hstr : forall s, P (JStr s).
Hypothesis Harr : forall l, Forall P l -> P (JArr l).
Hypothesis Hobj : forall m, Forall (fun kv => P (snd kv)) m -> P (JObj m).

(** Induction on a JSON value, with the property known of the items of an
    array and of the values of an object. *)
Fixpoint json_induction (v : json) : P v :=
  match v with
  | JNull => Hnull
  | JBool b => Hbool b
  | JInt z => Hint z
  | JFloat f => Hfloat f
  | JStr s => Hstr s
  | JArr l =>
    Harr ((fix all (l : list json) : Forall P l :=
             match l with
             | [] => Forall_nil P
             | x :: l' => @Forall_cons _ P x l' (json_induction x) (all l')
             end) l)
  | JObj m =>
    Hobj ((fix all (m : list (str * json))
             : Forall (fun kv => P (snd kv)) m :=
             match m with
             | [] => Forall_nil _
             | kv :: m' =>
               @Forall_cons _ (fun kv => P (snd kv)) kv m'
                            (json_induction (snd kv)) (all m')
             end) m)
  end.

End Induction.

End JsonGrammar.
Import JsonGrammar.

(** ** The template as literal text and replacement fields *)

Module TemplateSpec.

Local Open Scope N_scope.

Inductive segment : Type :=
| SLit (s : str)
| SField (name : str).

(** The template text of a list of segments. *)
Fixpoint template_text (segs : list segment) : str :=
  match segs with
  | [] => []
  | SLit s :: segs' => s ++ template_text segs'
  | SField n :: segs' => [123] ++ n ++ [125] ++ template_text segs'
  end.

Definition flush (lit : str) (rest : list segment) : list segment :=
  match lit with
  | [] => rest
  | _ :: _ => SLit (rev lit) :: rest
  end.

(** Cutting a template at its braces. *)
Fixpoint split_template (t : str) (lit : str) (field : option str)
    : list segment :=
  match t with
  | [] => flush lit []
  | c :: t' =>
    match field with
    | None =>
      if c =? 123 then flush lit (split_template t' [] (Some []))
      else split_template t' (c :: lit) None
    | Some acc =>
      if c =? 125 then SField (rev acc) :: split_template t' [] None
      else split_template t' lit (Some (c :: acc))
    end
  end.

(** The segments of [prompt_base]: fifteen pieces of text around fourteen
    fields. *)
Definition prompt_segments : list segment :=
  Eval vm_compute in split_template prompt_base [] None.

Definition no_brace (c : char) : bool :=
  negb (c =? 123) && negb (c =? 125).

Definition name_char (c : char) : bool :=
  negb (c =? 125) && negb (field_special c).

(** Literal text without braces, field names without special
    characters. *)
Definition segment_ok (seg : segment) : bool :=
  match seg with
  | SLit s => forallb no_brace s
  | SField n => forallb name_char n
  end.

Definition field_names (segs : list segment) : list str :=
  flat_map (fun seg => match seg with SField n => [n] | SLit _ => [] end) segs.

Section Fill.

Variable float_repr : spec_float -> str.

(** What a segment becomes in the formatted text. *)
Definition segment_out (kwargs : list (str * pyval)) (seg : segment) : str :=
  match seg with
  | SLit s => s
  | SField n =>
    match kw_get kwargs n with
    | Some v => py_str float_repr v
    | None => []
    end
  end.

Definition resolves (kwargs : list (str * pyval)) (seg : segment) : bool :=
  match seg with
  | SLit _ => true
  | SField n =>
    match kw_get kwargs n with
    | Some _ => true
    | None => false
    end
  end.

(** Filling the segments in, left to right. *)
Fixpoint fill (kwargs : list (str * pyval)) (segs : list segment)
    : result str :=
  match segs with
  | [] => Ok []
  | SLit s :: segs' => prepend s (fill kwargs segs')
  | SField n :: segs' =>
    match kw_get kwargs n with
    | Some v => prepend (py_str float_repr v) (fill kwargs segs')
    | None => Raise (key_error n)
    end
  end.

End Fill.

(** A patient whose map of prior values holds finite floats only, the
    ones JSON can carry. *)
Definition well_formed (data : PatientData) : bool :=
  finite_floats (JObj (objeto_json_valores_previos data)).

(** The formatted prompt: the pieces of text of the template with the
    fourteen values between them. *)
Definition rendered (float_repr : spec_float -> str) (data : PatientData)
    : str :=
  flat_map (segment_out float_repr (prompt_kwargs float_repr data))
           prompt_segments.

(** *** The example patient of the field declarations *)

(** The binary64 value nearest to [num / den]. *)
Definition decimal_float (num den : Z) : spec_float :=
  SFdiv 53 1024 (float_of_Z num) (float_of_Z den).

Definition example_data : PatientData :=
  {| frecuencia_cardiaca := 125;
     presion_arterial := U "85/45";
     frecuencia_respiratoria := 28;
     temperatura_corporal := decimal_float 391 10;
     saturacion_oxigeno := 89;
     procalcitonina := decimal_float 45 10;
     lactato := decimal_float 31 10;
     pcr := decimal_float 210 1;
     leucocitos := decimal_float 182 10;
     array_json_comorbilidades := [U "EPOC"; U "Hipertensión"];
     texto_patologias_presentes := U "Neumonía Adquirida en la Comunidad (NAC)";
     texto_sintomas_diarios := U "Confusión aguda, disnea severa.";
     objeto_json_valores_previos :=
       [(U "lactato_previo", JFloat (decimal_float 11 10));
        (U "pa_previa", JStr (U "110/70"))];
     porcentaje_ia := 85 |}.

(** [repr] on the floats of the example. *)
Definition example_repr (f : spec_float) : str :=
  if SFeqb f (decimal_float 391 10) then U "39.1"
  else if SFeqb f (decimal_float 45 10) then U "4.5"
  else if SFeqb f (decimal_float 31 10) then U "3.1"
  else if SFeqb f (decimal_float 210 1) then U "210.0"
  else if SFeqb f (decimal_float 182 10) then U "18.2"
  else if SFeqb f (decimal_float 11 10) then U "1.1"
  else U "0.0".

End TemplateSpec.
Import TemplateSpec.

(** ** Replies with a single header *)

Module SingleHeader.

(** One of the three sections. *)
Inductive section_id : Type := Analisis | Justificacion | Acciones.

Definition header_of (k : section_id) : str :=
  match k with
  | Analisis => header1
  | Justificacion => header2
  | Acciones => header3
  end.

(** The two other headers do not occur in the reply. *)
Definition others_absent (k : section_id) (text : str) : Prop :=
  match k with
  | Analisis => absent header2 text /\ absent header3 text
  | Justificacion => absent header1 text /\ absent header3 text
  | Acciones => absent header1 text /\ absent header2 text
  end.

(** The result for a reply whose only header is that of [k], followed by
    [x]: the section runs to the end of the reply, the two others get their
    placeholders. *)
Definition parsed_one_section (k : section_id) (x : str) : AnalysisResponse :=
  match k with
  | Analisis =>
    {| analisis_breve := clean x;
       justificacion := placeholder_justificacion;
       acciones_sugeridas := placeholder_acciones |}
  | Justificacion =>
    {| analisis_breve := placeholder_analisis;
       justificacion := clean x;
       acciones_sugeridas := placeholder_acciones |}
  | Acciones =>
    {| analisis_breve := placeholder_analisis;
       justificacion := placeholder_justificacion;
       acciones_sugeridas := clean x |}
  end.

(** A field is its placeholder or a piece of the reply. *)
Definition from_reply (text placeholder field : str) : Prop :=
  field = placeholder \/ contains text field.

(** The keyword [n] is bound. *)
Definition bound (kwargs : list (str * pyval)) (n : str) : bool :=
  match kw_get kwargs n with
  | Some _ => true
  | None => false
  end.

End SingleHeader.
Import SingleHeader.

(** ** Reading an escaped string back *)

Module Unescape.

Local Open Scope N_scope.

(** The inverse of the escaping of [json.dumps]: the inside of a JSON
    string literal read back into the string it stands for. *)
Fixpoint unescape (b : str) : option str :=
  match b with
  | [] => Some []
  | c :: rest =>
    if c =? 92 then
      match rest with
      | [] => None
      | e :: rest1 =>
        if e =? 117 then
          match rest1 with
          | h1 :: h2 :: h3 :: h4 :: rest2 =>
            match hex4 h1 h2 h3 h4, unescape rest2 with
            | Some x, Some s => Some (x :: s)
            | _, _ => None
            end
          | _ => None
          end
        else
          match short_escape e, unescape rest1 with
          | Some x, Some s => Some (x :: s)
          | _, _ => None
          end
      end
    else if unescaped c then
      match unescape rest with
      | Some s => Some (c :: s)
      | None => None
      end
    else None
  end.

(** A string literal, quotes included, read back. *)
Definition decode_basestring (t : str) : option str :=
  match t with
  | q :: b =>
    if (q =? 34) && (last b 0 =? 34) then unescape (removelast b) else None
  | [] => None
  end.

End Unescape.
Import Unescape.

(** ** When the section-matching machinery errors *)

Module FallbackSpec.

(** The world after one more printed line. *)
Definition printed (w : world) (line : str) : world :=
  {| stdout := stdout w ++ [line];
     llm_calls := llm_calls w;
     configured_api_key := configured_api_key w |}.

(** The machinery errors on the reply: of the three searches, run in
    turn from the world [w], the first, the second or the third raises [e]
    and leaves the world [w1]. *)
Definition search_raises
    (re_search : regex -> str -> flags -> M (option match_obj))
    (text : str) (w : world) (e : exn) (w1 : world) : Prop :=
  re_search pattern_analisis text parse_flags w = (Raise e, w1)
  \/ exists m1 wa,
       re_search pattern_analisis text parse_flags w = (Ok m1, wa)
       /\ (re_search pattern_justificacion text parse_flags wa = (Raise e, w1)
           \/ exists m2 wb,
                re_search pattern_justificacion text parse_flags wa = (Ok m2, wb)
                /\ re_search pattern_acciones text parse_flags wb = (Raise e, w1)).

(** A search that works twice and raises on the last pattern. *)
Definition search_failing_last (r : regex) (t : str) (f : flags)
    : M (option match_obj) :=
  match r with
  | Seq _ (Group _) => raise (Exception "RuntimeError" (U "internal error"))
  | _ => ret (Re.search r t f)
  end.

End FallbackSpec.
Import FallbackSpec.

(** ** Trimming, said without the code *)

Module TrimSpec.

Local Open Scope N_scope.

Definition is_paren (c : char) : bool := (c =? 40) || (c =? 41).

(** [r] is [s] with the characters satisfying [p] taken off its two ends:
    only such characters are taken off, and none is left at either end. *)
Definition stripped (p : char -> bool) (s r : str) : Prop :=
  exists l t,
    s = l ++ r ++ t
    /\ forallb p l = true
    /\ forallb p t = true
    /\ (forall c r', r = c :: r' -> p c = false)
    /\ (forall c r', r = r' ++ [c] -> p c = false).

(** [r] is [g] trimmed of surrounding white space and surrounding
    parentheses: white space is taken off the ends, then parentheses,
    then the white space that was inside them. *)
Definition trimmed (g r : str) : Prop :=
  exists g1 g2,
    stripped py_isspace g g1
    /\ stripped is_paren g1 g2
    /\ stripped py_isspace g2 r.

End TrimSpec.
Import TrimSpec.

(** ** The sections of any reply *)

Module SectionSpec.

(** [h] is an occurrence of [header]: text of its length that the pattern
    of the header matches, in any letter case. *)
Definition is_header (header h : str) : Prop :=
  length h = length header /\ starts_with parse_flags header h = true.

(** The section of [header], closed by [next]: when [header] first occurs
    after [pre] and the text [a] after it runs up to an occurrence of
    [next], with no earlier one inside, the field is [a] trimmed. *)
Definition section_up_to (header next text field : str) : Prop :=
  forall pre h a h' post,
    text = pre ++ h ++ a ++ h' ++ post ->
    is_header header h -> is_header next h' ->
    none_before header text (length pre) ->
    none_before next (a ++ h' ++ post) (length a) ->
    trimmed a field.

(** The same section when [next] does not occur after the header: the
    field is all the rest of the reply, trimmed. *)
Definition section_to_end (header next text field : str) : Prop :=
  forall pre h a,
    text = pre ++ h ++ a ->
    is_header header h ->
    none_before header text (length pre) ->
    absent next a ->
    trimmed a field.

(** The last section: all the text after the first occurrence of its
    header, trimmed. *)
Definition last_section (header text field : str) : Prop :=
  forall pre h c,
    text = pre ++ h ++ c ->
    is_header header h ->
    none_before header text (length pre) ->
    trimmed c field.

(** The field of the header a reply lacks, and its placeholder. *)
Definition field_of_missing (k : missing) (r : AnalysisResponse) : str :=
  match k with
  | Missing1 => analisis_breve r
  | Missing2 => justificacion r
  | Missing3 => acciones_sugeridas r
  end.

Definition placeholder_of (k : missing) : str :=
  match k with
  | Missing1 => placeholder_analisis
  | Missing2 => placeholder_justificacion
  | Missing3 => placeholder_acciones
  end.

End SectionSpec.
Import SectionSpec.

(** ** A patient with a NaN among the prior values *)

Module NanExample.

(** [repr] as Python has it on the floats that are not finite, and as the
    example has it on the others. *)
Definition repr_with_nan (f : spec_float) : str :=
  match f with
  | S754_nan => U "nan"
  | S754_infinity false => U "inf"
  | S754_infinity true => U "-inf"
  | _ => example_repr f
  end.

(** The example patient, with a NaN as the prior lactate. *)
Definition nan_data : PatientData :=
  {| frecuencia_cardiaca := frecuencia_cardiaca example_data;
     presion_arterial := presion_arterial example_data;
     frecuencia_respiratoria := frecuencia_respiratoria example_data;
     temperatura_corporal := temperatura_corporal example_data;
     saturacion_oxigeno := saturacion_oxigeno example_data;
     procalcitonina := procalcitonina example_data;
     lactato := lactato example_data;
     pcr := pcr example_data;
     leucocitos := leucocitos example_data;
     array_json_comorbilidades := array_json_comorbilidades example_data;
     texto_patologias_presentes := texto_patologias_presentes example_data;
     texto_sintomas_diarios := texto_sintomas_diarios example_data;
     objeto_json_valores_previos := [(U "lactato_previo", JFloat S754_nan)];
     porcentaje_ia := porcentaje_ia example_data |}.

(** What [json.dumps] writes for that map. *)
Definition nan_map_text : str :=
  Eval vm_compute in
  (U "{
  " ++ dquote ++ U "lactato_previo" ++ dquote ++ U ": NaN
}").

End NanExample.
Import NanExample.

(** * Properties *)

(** ** The matcher on the shapes of the three patterns *)

Module ReFacts.

Lemma rmatch_lits f h : forall pos s g k,
  rmatch f (lits h) pos s g k =
  if starts_with f h s then k (pos + length h) (skipn (length h) s) g else None.
Proof.
  induction h as [|c h IH]; intros pos s g k.
  - cbn. now rewrite Nat.add_0_r.
  - destruct s as [|x s]; [reflexivity|].
    cbn [lits fold_right rmatch starts_with length skipn].
    destruct (lit_match f c x); cbn [andb]; [|reflexivity].
    fold (lits h). rewrite IH. now rewrite Nat.add_succ_r.
Qed.

Lemma rmatch_lookahead f h pos s g k :
  rmatch f (LookAhead (Alt (lits h) EndZ)) pos s g k =
  if la_ok f h s then k pos s g else None.
Proof.
  cbn [rmatch]. rewrite rmatch_lits. unfold la_ok.
  destruct (starts_with f h s); [reflexivity|].
  destruct s; reflexivity.
Qed.

Lemma dotstar_lazy_until f h (Hd : DOTALL f = true) p0 : forall s pos g,
  dotstar_lazy f pos s g
    (fun p s' _ => rmatch f (LookAhead (Alt (lits h) EndZ)) p s' (Some (p0, p)) accept)
  = Some (pos + until_header f h s, Some (p0, pos + until_header f h s)).
Proof.
  induction s as [|x s IH]; intros pos g.
  - cbn [dotstar_lazy]. rewrite rmatch_lookahead. unfold la_ok.
    rewrite orb_true_r. cbn. now rewrite Nat.add_0_r.
  - cbn [dotstar_lazy until_header]. rewrite rmatch_lookahead. unfold la_ok.
    destruct (starts_with f h (x :: s)); cbn [orb is_empty].
    + unfold accept. now rewrite Nat.add_0_r.
    + unfold dot_match. rewrite Hd. cbn [orb]. rewrite IH.
      now rewrite Nat.add_succ_r.
Qed.

Lemma dotstar_greedy_all f (Hd : DOTALL f = true) p0 : forall s pos g,
  dotstar_greedy f pos s g (fun p s' _ => accept p s' (Some (p0, p)))
  = Some (pos + length s, Some (p0, pos + length s)).
Proof.
  induction s as [|x s IH]; intros pos g.
  - cbn. now rewrite Nat.add_0_r.
  - cbn [dotstar_greedy length]. unfold dot_match. rewrite Hd. cbn [orb].
    rewrite IH. now rewrite Nat.add_succ_r.
Qed.

Lemma rmatch_lazy_pattern f h next (Hd : DOTALL f = true) pos s :
  rmatch f (lazy_pattern h next) pos s None accept =
  if starts_with f h s then
    let b := pos + length h in
    let e := b + until_header f next (skipn (length h) s) in
    Some (e, Some (b, e))
  else None.
Proof.
  unfold lazy_pattern.
  change (rmatch f (Seq (lits h) ?r) pos s None accept)
    with (rmatch f (lits h) pos s None (fun p s' g' => rmatch f r p s' g' accept)).
  rewrite rmatch_lits.
  destruct (starts_with f h s); [|reflexivity].
  change (rmatch f (Seq (Group (DotStar false)) ?la) ?p ?s1 None accept)
    with (dotstar_lazy f p s1 None
            (fun p' s' _ => rmatch f la p' s' (Some (p, p')) accept)).
  now rewrite dotstar_lazy_until.
Qed.

Lemma rmatch_greedy_pattern f h (Hd : DOTALL f = true) pos s :
  rmatch f (greedy_pattern h) pos s None accept =
  if starts_with f h s then
    let b := pos + length h in
    let e := b + length (skipn (length h) s) in
    Some (e, Some (b, e))
  else None.
Proof.
  unfold greedy_pattern.
  change (rmatch f (Seq (lits h) ?r) pos s None accept)
    with (rmatch f (lits h) pos s None (fun p s' g' => rmatch f r p s' g' accept)).
  rewrite rmatch_lits.
  destruct (starts_with f h s); [|reflexivity].
  change (rmatch f (Group (DotStar true)) ?p ?s1 None accept)
    with (dotstar_greedy f p s1 None (fun p' s' _ => accept p' s' (Some (p, p')))).
  now rewrite dotstar_greedy_all.
Qed.

Lemma search_from_lazy f h next (Hd : DOTALL f = true) text : forall s pos,
  search_from f (lazy_pattern h next) text pos s =
  match find_header f h s with
  | Some i =>
    let b := pos + i + length h in
    let e := b + until_header f next (skipn (i + length h) s) in
    Some {| m_string := text; m_start := pos + i; m_end := e;
            m_group1 := Some (b, e) |}
  | None => None
  end.
Proof.
  induction s as [|x s IH]; intros pos.
  - cbn [search_from find_header]. rewrite rmatch_lazy_pattern by assumption.
    destruct (starts_with f h []); cbn; [|reflexivity].
    now rewrite !Nat.add_0_r.
  - cbn [search_from find_header]. rewrite rmatch_lazy_pattern by assumption.
    destruct (starts_with f h (x :: s)).
    + cbn zeta. now rewrite !Nat.add_0_r.
    + rewrite IH. destruct (find_header f h s) as [i|]; [|reflexivity].
      cbn [option_map]. cbn zeta. rewrite !Nat.add_succ_r. reflexivity.
Qed.

Lemma search_from_greedy f h (Hd : DOTALL f = true) text : forall s pos,
  search_from f (greedy_pattern h) text pos s =
  match find_header f h s with
  | Some i =>
    let b := pos + i + length h in
    let e := b + length (skipn (i + length h) s) in
    Some {| m_string := text; m_start := pos + i; m_end := e;
            m_group1 := Some (b, e) |}
  | None => None
  end.
Proof.
  induction s as [|x s IH]; intros pos.
  - cbn [search_from find_header]. rewrite rmatch_greedy_pattern by assumption.
    destruct (starts_with f h []); cbn; [|reflexivity].
    now rewrite !Nat.add_0_r.
  - cbn [search_from find_header]. rewrite rmatch_greedy_pattern by assumption.
    destruct (starts_with f h (x :: s)).
    + cbn zeta. now rewrite !Nat.add_0_r.
    + rewrite IH. destruct (find_header f h s) as [i|]; [|reflexivity].
      cbn [option_map]. cbn zeta. rewrite !Nat.add_succ_r. reflexivity.
Qed.

End ReFacts.

(** ** The parser in closed form *)

Module ParserFacts.

Import ReFacts.

Lemma bind_ret A B (a : A) (k : A -> M B) : bind (ret a) k = k a.
Proof. reflexivity. Qed.

Lemma parse_flags_dotall : DOTALL parse_flags = true.
Proof. reflexivity. Qed.

Lemma clean_or_lazy h next text ph :
  clean_or (Re.search (lazy_pattern h next) text parse_flags) ph
  = ret (cleaned (captured_lazy h next text) ph).
Proof.
  unfold Re.search, captured_lazy.
  rewrite search_from_lazy by apply parse_flags_dotall.
  destruct (find_header parse_flags h text) as [i|]; [|reflexivity].
  cbn zeta. unfold clean_or, group1, cleaned. cbn [m_group1 m_string].
  unfold slice. cbn [Nat.add].
  replace (i + length h + until_header parse_flags next (skipn (i + length h) text)
           - (i + length h))
    with (until_header parse_flags next (skipn (i + length h) text)) by lia.
  reflexivity.
Qed.

Lemma clean_or_greedy h text ph :
  clean_or (Re.search (greedy_pattern h) text parse_flags) ph
  = ret (cleaned (captured_greedy h text) ph).
Proof.
  unfold Re.search, captured_greedy.
  rewrite search_from_greedy by apply parse_flags_dotall.
  destruct (find_header parse_flags h text) as [i|]; [|reflexivity].
  cbn zeta. unfold clean_or, group1, cleaned. cbn [m_group1 m_string].
  unfold slice. cbn [Nat.add].
  replace (i + length h + length (skipn (i + length h) text) - (i + length h))
    with (length (skipn (i + length h) text)) by lia.
  now rewrite firstn_all.
Qed.

(** With the library's [re.search] the [try] never raises and nothing is
    printed: the parser returns [parsed text]. *)
Lemma parse_gemini_response_eq text w :
  parse_gemini_response text w = (Ok (parsed text), w).
Proof.
  unfold parse_gemini_response, parse_with, try_except, parse_try.
  rewrite !bind_ret.
  change pattern_analisis with (lazy_pattern header1 header2).
  change pattern_justificacion with (lazy_pattern header2 header3).
  change pattern_acciones with (greedy_pattern header3).
  rewrite !clean_or_lazy, clean_or_greedy, !bind_ret.
  reflexivity.
Qed.

End ParserFacts.

(** ** Stripping *)

Module StripFacts.

Lemma lstrip_by_split p s :
  exists l, s = l ++ lstrip_by p s /\ forallb p l = true.
Proof.
  induction s as [|c s [l [Hs Hl]]].
  - exists []. split; reflexivity.
  - cbn [lstrip_by]. destruct (p c) eqn:Hc.
    + exists (c :: l). split.
      * cbn. now rewrite <- Hs.
      * cbn. now rewrite Hc.
    + exists []. split; reflexivity.
Qed.

Lemma lstrip_by_head p s c r : lstrip_by p s = c :: r -> p c = false.
Proof.
  induction s as [|x s IH]; cbn [lstrip_by]; [discriminate|].
  destruct (p x) eqn:Hx; [exact IH|].
  intros H. injection H as -> _. exact Hx.
Qed.

Lemma rstrip_by_split p s :
  exists t, s = rstrip_by p s ++ t /\ forallb p t = true.
Proof.
  unfold rstrip_by.
  destruct (lstrip_by_split p (rev s)) as [l [Hs Hl]].
  exists (rev l). split.
  - rewrite <- rev_app_distr, <- Hs. now rewrite rev_involutive.
  - rewrite forallb_forall in *. intros x Hx. apply Hl. now apply in_rev.
Qed.

Lemma rstrip_by_last p s c r : rstrip_by p s = r ++ [c] -> p c = false.
Proof.
  unfold rstrip_by. intros H.
  apply (f_equal (@rev _)) in H. rewrite rev_involutive, rev_app_distr in H.
  cbn in H. exact (lstrip_by_head _ _ H).
Qed.

Lemma rstrip_by_head p s c r :
  (forall c' r', s = c' :: r' -> p c' = false) ->
  rstrip_by p s = c :: r -> p c = false.
Proof.
  intros Hs H. destruct (rstrip_by_split p s) as [t [Hst _]].
  rewrite H in Hst. cbn in Hst. exact (Hs _ _ Hst).
Qed.

Lemma strip_by_spec p s :
  exists l t,
    s = l ++ strip_by p s ++ t
    /\ forallb p l = true /\ forallb p t = true
    /\ (forall c r, strip_by p s = c :: r -> p c = false)
    /\ (forall c r, strip_by p s = r ++ [c] -> p c = false).
Proof.
  unfold strip_by.
  destruct (lstrip_by_split p s) as [l [Hl Hpl]].
  destruct (rstrip_by_split p (lstrip_by p s)) as [t [Ht Hpt]].
  exists l, t. repeat split; try assumption.
  - rewrite <- Ht. exact Hl.
  - intros c r. apply rstrip_by_head. intros c' r'. apply lstrip_by_head.
  - intros c r. apply rstrip_by_last.
Qed.

Lemma forallb_weaken (p q : char -> bool) l :
  (forall c, p c = true -> q c = true) -> forallb p l = true -> forallb q l = true.
Proof.
  intros Hpq. rewrite !forallb_forall. auto.
Qed.

Lemma isspace_removable c : py_isspace c = true -> removable c = true.
Proof. unfold removable. intros ->. reflexivity. Qed.

Lemma paren_removable c :
  existsb (N.eqb c) (U "()") = true -> removable c = true.
Proof.
  unfold removable. cbn. rewrite orb_false_r.
  intros H. rewrite <- orb_assoc. rewrite H. apply orb_true_r.
Qed.

(** Cleaning a section trims it. *)
Lemma clean_trims g : trimmed_of g (clean g).
Proof.
  unfold clean, strip, strip_chars.
  destruct (strip_by_spec py_isspace g) as [l1 [t1 [H1 [Hl1 [Ht1 _]]]]].
  set (g1 := strip_by py_isspace g) in *.
  destruct (strip_by_spec (fun c => existsb (N.eqb c) (U "()")) g1)
    as [l2 [t2 [H2 [Hl2 [Ht2 _]]]]].
  set (g2 := strip_by (fun c => existsb (N.eqb c) (U "()")) g1) in *.
  destruct (strip_by_spec py_isspace g2) as [l3 [t3 [H3 [Hl3 [Ht3 [Hh Hla]]]]]].
  set (g3 := strip_by py_isspace g2) in *.
  exists (l1 ++ l2 ++ l3), (t3 ++ t2 ++ t1). repeat split.
  - rewrite H1 at 1. rewrite H2 at 1. rewrite H3 at 1.
    now rewrite <- !app_assoc.
  - rewrite !forallb_app.
    rewrite (forallb_weaken _ _ _ isspace_removable Hl1).
    rewrite (forallb_weaken _ _ _ paren_removable Hl2).
    now rewrite (forallb_weaken _ _ _ isspace_removable Hl3).
  - rewrite !forallb_app.
    rewrite (forallb_weaken _ _ _ isspace_removable Ht1).
    rewrite (forallb_weaken _ _ _ paren_removable Ht2).
    now rewrite (forallb_weaken _ _ _ isspace_removable Ht3).
  - exact Hh.
  - exact Hla.
Qed.

End StripFacts.

(** ** Occurrences of a header *)

Module HeaderFacts.

Import ParserFacts.

Lemma starts_with_app f h : forall s r,
  starts_with f h s = true -> starts_with f h (s ++ r) = true.
Proof.
  induction h as [|c h IH]; intros s r; [reflexivity|].
  destruct s as [|x s]; cbn [starts_with app]; [discriminate|].
  rewrite !andb_true_iff. intros [-> H]. split; [reflexivity|]. now apply IH.
Qed.

Lemma skipn_app_exact (A : Type) (l r : list A) : skipn (length l) (l ++ r) = r.
Proof. induction l; cbn; auto. Qed.

Lemma skipn_app_plus (A : Type) (l r : list A) n :
  skipn (length l + n) (l ++ r) = skipn n r.
Proof. induction l; cbn; auto. Qed.

Lemma firstn_app_exact (A : Type) (l r : list A) : firstn (length l) (l ++ r) = l.
Proof. induction l; cbn; [reflexivity|]. now f_equal. Qed.

Lemma find_header_first f h : forall t n,
  (forall m, m < n -> starts_with f h (skipn m t) = false) ->
  starts_with f h (skipn n t) = true ->
  find_header f h t = Some n.
Proof.
  induction t as [|x t IH]; intros n Hnone Hocc.
  - destruct n as [|n].
    + cbn in *. now rewrite Hocc.
    + specialize (Hnone 0 (Nat.lt_0_succ n)). cbn [skipn] in *. congruence.
  - destruct n as [|n].
    + cbn [skipn] in Hocc. cbn [find_header]. now rewrite Hocc.
    + cbn [find_header]. pose proof (Hnone 0 (Nat.lt_0_succ n)) as H0.
      cbn [skipn] in H0. rewrite H0.
      rewrite (IH n); [reflexivity| |exact Hocc].
      intros m Hm. apply (Hnone (S m)). lia.
Qed.

Lemma find_header_none f h : forall t,
  find_header f h t = None <-> forall n, starts_with f h (skipn n t) = false.
Proof.
  induction t as [|x t IH]; cbn [find_header].
  - destruct (starts_with f h []) eqn:E; split; try discriminate.
    + intros H. specialize (H 0). cbn in H. congruence.
    + intros _ k. now destruct k.
    + reflexivity.
  - destruct (starts_with f h (x :: t)) eqn:E; split; try discriminate.
    + intros H. specialize (H 0). cbn in H. congruence.
    + intros H k. destruct k as [|k]; [exact E|].
      cbn [skipn]. apply IH. now destruct (find_header f h t).
    + intros H.
      assert (Hn : find_header f h t = None).
      { apply IH. intros k. exact (H (S k)). }
      now rewrite Hn.
Qed.

Lemma find_header_some f h : forall t n,
  find_header f h t = Some n ->
  starts_with f h (skipn n t) = true
  /\ forall m, m < n -> starts_with f h (skipn m t) = false.
Proof.
  induction t as [|x t IH]; intros n; cbn [find_header].
  - destruct (starts_with f h []) eqn:E; [|discriminate].
    intros H. injection H as <-. split; [exact E|]. intros m Hm. lia.
  - destruct (starts_with f h (x :: t)) eqn:E.
    + intros H. injection H as <-. split; [exact E|]. intros m Hm. lia.
    + destruct (find_header f h t) as [i|] eqn:F; [|discriminate].
      cbn. intros H. injection H as <-.
      destruct (IH i eq_refl) as [H1 H2]. split; [exact H1|].
      intros m Hm. destruct m as [|m]; [exact E|]. cbn [skipn]. apply H2. lia.
Qed.

Lemma until_header_first f h : forall s n,
  (forall m, m < n -> starts_with f h (skipn m s) = false) ->
  n <= length s ->
  starts_with f h (skipn n s) = true \/ n = length s ->
  until_header f h s = n.
Proof.
  induction s as [|x s IH]; intros n Hnone Hle Hat.
  - cbn in *. lia.
  - destruct n as [|n].
    + cbn [until_header]. destruct Hat as [Hat|Hat]; [|discriminate].
      cbn [skipn] in Hat. now rewrite Hat.
    + cbn [until_header]. pose proof (Hnone 0 (Nat.lt_0_succ n)) as H0.
      cbn [skipn] in H0. rewrite H0.
      f_equal. apply IH.
      * intros m Hm. apply (Hnone (S m)). lia.
      * cbn in Hle. lia.
      * destruct Hat as [Hat|Hat]; [left; exact Hat|right]. cbn in Hat. lia.
Qed.

Lemma occurs_at_here h pre post :
  starts_with parse_flags h h = true -> occurs_at h (pre ++ h ++ post) (length pre).
Proof.
  intros Hh. unfold occurs_at. rewrite skipn_app_exact. now apply starts_with_app.
Qed.

Lemma none_before_false h t n m :
  none_before h t n -> m < n -> starts_with parse_flags h (skipn m t) = false.
Proof.
  intros H Hm. specialize (H m Hm). unfold occurs_at in H.
  now destruct (starts_with parse_flags h (skipn m t)).
Qed.

Lemma absent_false h t n :
  absent h t -> starts_with parse_flags h (skipn n t) = false.
Proof.
  intros H. specialize (H n). unfold occurs_at in H.
  now destruct (starts_with parse_flags h (skipn n t)).
Qed.

(** The text between a header and the next one. *)
Lemma captured_lazy_between h next pre a post :
  starts_with parse_flags h h = true ->
  starts_with parse_flags next next = true ->
  none_before h (pre ++ h ++ a ++ next ++ post) (length pre) ->
  none_before next (pre ++ h ++ a ++ next ++ post) (length (pre ++ h ++ a)) ->
  captured_lazy h next (pre ++ h ++ a ++ next ++ post) = Some a.
Proof.
  intros Hh Hn H1 H2. unfold captured_lazy.
  rewrite find_header_first with (n := length pre).
  - cbn zeta. rewrite app_assoc, <- length_app, skipn_app_exact.
    rewrite until_header_first with (n := length a).
    + now rewrite firstn_app_exact.
    + intros m Hm.
      replace (skipn m (a ++ next ++ post))
        with (skipn (length (pre ++ h) + m) ((pre ++ h) ++ a ++ next ++ post))
        by apply skipn_app_plus.
      rewrite <- app_assoc. apply (none_before_false H2).
      rewrite !length_app in *. lia.
    + rewrite length_app. lia.
    + left. rewrite skipn_app_exact. now apply starts_with_app.
  - intros m Hm. apply (none_before_false H1 Hm).
  - now apply occurs_at_here.
Qed.

(** The text after a header whose successor is absent. *)
Lemma captured_lazy_to_end h next pre a :
  starts_with parse_flags h h = true ->
  none_before h (pre ++ h ++ a) (length pre) ->
  absent next (pre ++ h ++ a) ->
  captured_lazy h next (pre ++ h ++ a) = Some a.
Proof.
  intros Hh H1 H2. unfold captured_lazy.
  rewrite find_header_first with (n := length pre).
  - cbn zeta. rewrite app_assoc, <- length_app, skipn_app_exact.
    rewrite until_header_first with (n := length a).
    + now rewrite firstn_all.
    + intros m Hm.
      replace (skipn m a)
        with (skipn (length (pre ++ h) + m) ((pre ++ h) ++ a))
        by apply skipn_app_plus.
      rewrite <- app_assoc. now apply absent_false.
    + lia.
    + now right.
  - intros m Hm. apply (none_before_false H1 Hm).
  - exact (@occurs_at_here h pre a Hh).
Qed.

(** The text after the last header. *)
Lemma captured_greedy_after h pre c :
  starts_with parse_flags h h = true ->
  none_before h (pre ++ h ++ c) (length pre) ->
  captured_greedy h (pre ++ h ++ c) = Some c.
Proof.
  intros Hh H1. unfold captured_greedy.
  rewrite find_header_first with (n := length pre).
  - cbn zeta. now rewrite app_assoc, <- length_app, skipn_app_exact.
  - intros m Hm. apply (none_before_false H1 Hm).
  - now apply occurs_at_here.
Qed.

Lemma captured_lazy_absent h next t : absent h t -> captured_lazy h next t = None.
Proof.
  intros H. unfold captured_lazy.
  replace (find_header parse_flags h t) with (@None nat); [reflexivity|].
  symmetry. apply find_header_none. intros n. now apply absent_false.
Qed.

Lemma captured_greedy_absent h t : absent h t -> captured_greedy h t = None.
Proof.
  intros H. unfold captured_greedy.
  replace (find_header parse_flags h t) with (@None nat); [reflexivity|].
  symmetry. apply find_header_none. intros n. now apply absent_false.
Qed.

(** Deciding the hypotheses on a given reply. *)
Lemma absent_by_search h t : find_header parse_flags h t = None -> absent h t.
Proof.
  intros H n Ho. unfold occurs_at in Ho.
  rewrite (proj1 (find_header_none parse_flags h t) H n) in Ho. discriminate.
Qed.

Lemma none_before_by_search h t n :
  find_header parse_flags h t = Some n -> none_before h t n.
Proof.
  intros H m Hm Ho. unfold occurs_at in Ho.
  destruct (find_header_some _ _ _ H) as [_ H2].
  rewrite (H2 m Hm) in Ho. discriminate.
Qed.

Lemma header1_self : starts_with parse_flags header1 header1 = true.
Proof. reflexivity. Qed.
Lemma header2_self : starts_with parse_flags header2 header2 = true.
Proof. reflexivity. Qed.
Lemma header3_self : starts_with parse_flags header3 header3 = true.
Proof. reflexivity. Qed.

End HeaderFacts.

Unset Implicit Arguments.

(** ** Stripping, as a function of the text *)

Module StripMore.

Import StripFacts.

Lemma lstrip_by_all (p : char -> bool) (s : str) :
  forallb p s = true -> lstrip_by p s = [].
Proof.
  induction s as [|c s IH]; [reflexivity|].
  cbn [forallb lstrip_by]. rewrite andb_true_iff. intros [-> Hs]. now apply IH.
Qed.

Lemma lstrip_by_app_all (p : char -> bool) (l s : str) :
  forallb p l = true -> lstrip_by p (l ++ s) = lstrip_by p s.
Proof.
  induction l as [|c l IH]; [reflexivity|].
  cbn [forallb app lstrip_by]. rewrite andb_true_iff. intros [-> Hl].
  now apply IH.
Qed.

Lemma lstrip_by_nil_all (p : char -> bool) (s : str) :
  lstrip_by p s = [] -> forallb p s = true.
Proof.
  induction s as [|c s IH]; [reflexivity|].
  cbn [lstrip_by forallb]. destruct (p c); [exact IH|discriminate].
Qed.

Lemma lstrip_by_app_keep (p : char -> bool) (s r : str) :
  lstrip_by p s <> [] -> lstrip_by p (s ++ r) = lstrip_by p s ++ r.
Proof.
  induction s as [|c s IH]; intros H; [now exfalso|].
  cbn [lstrip_by app] in *. destruct (p c); [now apply IH|reflexivity].
Qed.

Lemma forallb_rev (p : char -> bool) (s : str) :
  forallb p s = true -> forallb p (rev s) = true.
Proof.
  rewrite !forallb_forall. intros H x Hx. apply H. now apply in_rev.
Qed.

Lemma rstrip_by_app_all (p : char -> bool) (s r : str) :
  forallb p r = true -> rstrip_by p (s ++ r) = rstrip_by p s.
Proof.
  intros Hr. unfold rstrip_by. rewrite rev_app_distr.
  now rewrite (lstrip_by_app_all p (rev r) (rev s) (forallb_rev p r Hr)).
Qed.

Lemma strip_by_surrounded (p : char -> bool) (l g r : str) :
  forallb p l = true -> forallb p r = true ->
  strip_by p (l ++ g ++ r) = strip_by p g.
Proof.
  intros Hl Hr. unfold strip_by. rewrite (lstrip_by_app_all p l _ Hl).
  destruct (lstrip_by p g) eqn:E.
  - pose proof (lstrip_by_nil_all p g E) as Hg.
    rewrite lstrip_by_all; [reflexivity|].
    rewrite forallb_app. now rewrite Hg, Hr.
  - rewrite lstrip_by_app_keep by (rewrite E; discriminate).
    rewrite E. now apply rstrip_by_app_all.
Qed.

Lemma lstrip_by_keep (p : char -> bool) (c : char) (s : str) :
  p c = false -> lstrip_by p (c :: s) = c :: s.
Proof. intros H. cbn [lstrip_by]. now rewrite H. Qed.

Lemma rstrip_by_keep (p : char -> bool) (s : str) :
  (forall c r', s = r' ++ [c] -> p c = false) -> rstrip_by p s = s.
Proof.
  intros H. unfold rstrip_by. destruct (rev s) as [|c r] eqn:E.
  - apply (f_equal (@rev char)) in E. rewrite rev_involutive in E. now subst.
  - assert (Hs : s = rev r ++ [c]).
    { apply (f_equal (@rev char)) in E. now rewrite rev_involutive in E. }
    rewrite (lstrip_by_keep p c r (H c (rev r) Hs)). cbn [rev]. now symmetry.
Qed.

(** What is left when all the characters satisfying [p], and nothing
    else, are taken off both ends is what [strip] returns. *)
Lemma stripped_is_strip_by (p : char -> bool) (s r : str) :
  stripped p s r -> r = strip_by p s.
Proof.
  intros [l [t [-> [Hl [Ht [Hh Hla]]]]]].
  rewrite (strip_by_surrounded p l r t Hl Ht). unfold strip_by.
  destruct r as [|c r']; [reflexivity|].
  rewrite (lstrip_by_keep p c r' (Hh c r' eq_refl)).
  symmetry. now apply rstrip_by_keep.
Qed.

Lemma strip_by_stripped (p : char -> bool) (s : str) :
  stripped p s (strip_by p s).
Proof. exact (strip_by_spec p s). Qed.

Lemma stripped_ext (p q : char -> bool) (s r : str) :
  (forall c, p c = q c) -> stripped p s r -> stripped q s r.
Proof.
  intros E [l [t [Hs [Hl [Ht [Hh Hla]]]]]]. exists l, t.
  split; [exact Hs|].
  split; [apply (forallb_weaken p q l); [intros c; now rewrite E|exact Hl]|].
  split; [apply (forallb_weaken p q t); [intros c; now rewrite E|exact Ht]|].
  split; intros c r' Hr; rewrite <- E; eauto.
Qed.

Lemma paren_chars (c : char) :
  existsb (N.eqb c) (U "()") = is_paren c.
Proof. unfold is_paren. cbn. now rewrite orb_false_r. Qed.

(** The cleaning of the parser trims, and what trims is its result. *)
Lemma clean_trimmed (g : str) : trimmed g (clean g).
Proof.
  unfold clean, strip, strip_chars.
  exists (strip_by py_isspace g),
         (strip_by (fun c => existsb (N.eqb c) (U "()")) (strip_by py_isspace g)).
  split; [apply strip_by_stripped|]. split; [|apply strip_by_stripped].
  apply (stripped_ext (fun c => existsb (N.eqb c) (U "()")) is_paren);
    [apply paren_chars|apply strip_by_stripped].
Qed.

Lemma trimmed_is_clean (g r : str) : trimmed g r -> r = clean g.
Proof.
  intros [g1 [g2 [H1 [H2 H3]]]].
  apply stripped_is_strip_by in H1. subst g1.
  apply (stripped_ext is_paren (fun c => existsb (N.eqb c) (U "()"))) in H2;
    [|intros c; symmetry; apply paren_chars].
  apply stripped_is_strip_by in H2. subst g2.
  now apply stripped_is_strip_by in H3.
Qed.

End StripMore.

Set Implicit Arguments.

Unset Implicit Arguments.

(** ** Sections of any reply, headers in any letter case *)

Module GeneralSections.

Import ParserFacts StripFacts StripMore HeaderFacts.

Lemma is_header_occurs (header h pre rest : str) :
  is_header header h ->
  starts_with parse_flags header (skipn (length pre) (pre ++ h ++ rest)) = true.
Proof.
  intros [_ Hs]. rewrite skipn_app_exact. now apply starts_with_app.
Qed.

Lemma skip_header (header h pre rest : str) :
  is_header header h ->
  skipn (length pre + length header) (pre ++ h ++ rest) = rest.
Proof.
  intros [Hl _]. rewrite <- Hl, app_assoc, <- length_app.
  apply skipn_app_exact.
Qed.

Lemma none_before_starts (h t : str) (n m : nat) :
  none_before h t n -> m < n -> starts_with parse_flags h (skipn m t) = false.
Proof.
  intros H Hm. specialize (H m Hm). unfold occurs_at in H.
  now destruct (starts_with parse_flags h (skipn m t)).
Qed.

Lemma captured_lazy_general (header next pre h a h' post : str) :
  is_header header h -> is_header next h' ->
  none_before header (pre ++ h ++ a ++ h' ++ post) (length pre) ->
  none_before next (a ++ h' ++ post) (length a) ->
  captured_lazy header next (pre ++ h ++ a ++ h' ++ post) = Some a.
Proof.
  intros Hh Hn H1 H2. unfold captured_lazy.
  rewrite find_header_first with (n := length pre).
  - cbn zeta. rewrite (skip_header header h pre _ Hh).
    rewrite until_header_first with (n := length a).
    + now rewrite firstn_app_exact.
    + intros m Hm. exact (none_before_starts _ _ _ _ H2 Hm).
    + rewrite length_app. lia.
    + left. destruct Hn as [_ Hn]. rewrite skipn_app_exact.
      now apply starts_with_app.
  - intros m Hm. exact (none_before_starts _ _ _ _ H1 Hm).
  - now apply is_header_occurs.
Qed.

Lemma captured_lazy_general_end (header next pre h a : str) :
  is_header header h ->
  none_before header (pre ++ h ++ a) (length pre) ->
  absent next a ->
  captured_lazy header next (pre ++ h ++ a) = Some a.
Proof.
  intros Hh H1 H2. unfold captured_lazy.
  rewrite find_header_first with (n := length pre).
  - cbn zeta. rewrite (skip_header header h pre _ Hh).
    rewrite until_header_first with (n := length a).
    + now rewrite firstn_all.
    + intros m _. specialize (H2 m). unfold occurs_at in H2.
      now destruct (starts_with parse_flags next (skipn m a)).
    + lia.
    + now right.
  - intros m Hm. exact (none_before_starts _ _ _ _ H1 Hm).
  - now apply is_header_occurs.
Qed.

Lemma captured_greedy_general (header pre h c : str) :
  is_header header h ->
  none_before header (pre ++ h ++ c) (length pre) ->
  captured_greedy header (pre ++ h ++ c) = Some c.
Proof.
  intros Hh H1. unfold captured_greedy.
  rewrite find_header_first with (n := length pre).
  - cbn zeta. now rewrite (skip_header header h pre _ Hh).
  - intros m Hm. exact (none_before_starts _ _ _ _ H1 Hm).
  - now apply is_header_occurs.
Qed.

Lemma parsed_section_up_to (header next text ph : str) :
  section_up_to header next text (cleaned (captured_lazy header next text) ph).
Proof.
  intros pre h a h' post -> Hh Hn H1 H2.
  rewrite (captured_lazy_general header next pre h a h' post Hh Hn H1 H2).
  apply clean_trimmed.
Qed.

Lemma parsed_section_to_end (header next text ph : str) :
  section_to_end header next text (cleaned (captured_lazy header next text) ph).
Proof.
  intros pre h a -> Hh H1 H2.
  rewrite (captured_lazy_general_end header next pre h a Hh H1 H2).
  apply clean_trimmed.
Qed.

Lemma parsed_last_section (header text ph : str) :
  last_section header text (cleaned (captured_greedy header text) ph).
Proof.
  intros pre h c -> Hh H1.
  rewrite (captured_greedy_general header pre h c Hh H1).
  apply clean_trimmed.
Qed.

End GeneralSections.

Set Implicit Arguments.

(** ** Sections of a reply given by a decomposition *)

Module SectionFacts.

Import HeaderFacts.


Lemma lazy_to_end h next pre a text n1 :
  text = pre ++ h ++ a -> n1 = length pre ->
  starts_with parse_flags h h = true ->
  none_before h text n1 -> absent next text ->
  captured_lazy h next text = Some a.
Proof. intros -> ->. apply captured_lazy_to_end. Qed.

Lemma greedy_after h pre c text n1 :
  text = pre ++ h ++ c -> n1 = length pre ->
  starts_with parse_flags h h = true ->
  none_before h text n1 ->
  captured_greedy h text = Some c.
Proof. intros -> ->. apply captured_greedy_after. Qed.

End SectionFacts.

(** ** The claims about the parser *)

Module ParserClaims.

Import ParserFacts StripFacts StripMore HeaderFacts SectionFacts.



(** Replies with one header absent and the two others in order: the
    result, field by field. *)
Theorem parse_two_sections (k : missing) (pre x y : str) (w : world) :
  absent (missing_header k) (two_sections k pre x y) ->
  none_before (first_present k) (two_sections k pre x y) (length pre) ->
  none_before (second_present k) (two_sections k pre x y)
              (length (pre ++ first_present k ++ x)) ->
  parse_gemini_response (two_sections k pre x y) w
  = (Ok (parsed_two_sections k x y), w).
Proof.
  intros Ha H1 H2. rewrite parse_gemini_response_eq. f_equal.
  unfold parsed, parsed_two_sections.
  destruct k; unfold two_sections, missing_header, first_present,
    second_present in *.
  - rewrite (captured_lazy_absent header2 Ha).
    rewrite (captured_lazy_between pre x y header2_self header3_self H1 H2).
    rewrite greedy_after with (pre := pre ++ header2 ++ x) (c := y)
      (n1 := length (pre ++ header2 ++ x));
      auto using header3_self; now rewrite <- ?app_assoc.
  - rewrite (captured_lazy_absent header3 Ha).
    rewrite (captured_lazy_to_end (next := header2) pre (x ++ header3 ++ y)
               header1_self H1 Ha).
    rewrite greedy_after with (pre := pre ++ header1 ++ x) (c := y)
      (n1 := length (pre ++ header1 ++ x));
      auto using header3_self; now rewrite <- ?app_assoc.
  - rewrite (captured_greedy_absent Ha).
    rewrite (captured_lazy_between pre x y header1_self header2_self H1 H2).
    rewrite lazy_to_end with (pre := pre ++ header1 ++ x) (a := y)
      (n1 := length (pre ++ header1 ++ x));
      auto using header2_self; now rewrite <- ?app_assoc.
Qed.

Lemma parse_two_sections_witness :
  absent header2 (two_sections Missing2 [] (U " grave ") (U " cultivos "))
  /\ parse_gemini_response
       (two_sections Missing2 [] (U " grave ") (U " cultivos ")) w0
     = (Ok (parsed_two_sections Missing2 (U " grave ") (U " cultivos ")), w0).
Proof.
  split.
  - apply absent_by_search. vm_compute. reflexivity.
  - apply (@parse_two_sections Missing2 [] (U " grave ") (U " cultivos ") w0).
    + apply absent_by_search. vm_compute. reflexivity.
    + apply none_before_by_search. vm_compute. reflexivity.
    + apply none_before_by_search. vm_compute. reflexivity.
Defined.

(** C2, as the code has it.  For every reply in which one of the three
    headers is absent, in whatever order the others come, the parser
    returns without raising or printing, the field of the absent header
    is its fixed placeholder, and each field whose header is present is
    the text from the first occurrence of its header up to the next
    occurrence of its own closing header (header 2 for the first section,
    header 3 for the second), or to the end of the reply when that closing
    header does not follow (always so for the third section), trimmed of
    surrounding white space and parentheses.  So without header 2 the
    first field runs to the end of the reply, header 3 and the actions
    included. *)
Theorem parse_with_a_header_absent (k : missing) (text : str) (w : world) :
  absent (missing_header k) text ->
  exists r,
    parse_gemini_response text w = (Ok r, w)
    /\ field_of_missing k r = placeholder_of k
    /\ section_up_to header1 header2 text (analisis_breve r)
    /\ section_to_end header1 header2 text (analisis_breve r)
    /\ section_up_to header2 header3 text (justificacion r)
    /\ section_to_end header2 header3 text (justificacion r)
    /\ last_section header3 text (acciones_sugeridas r).
Proof.
  intros Ha. exists (parsed text).
  split; [apply parse_gemini_response_eq|].
  split.
  - destruct k; cbn [field_of_missing placeholder_of missing_header] in *;
      unfold parsed; cbn [analisis_breve justificacion acciones_sugeridas].
    + now rewrite (captured_lazy_absent header2 Ha).
    + now rewrite (captured_lazy_absent header3 Ha).
    + now rewrite (captured_greedy_absent Ha).
  - unfold parsed. cbn [analisis_breve justificacion acciones_sugeridas].
    split; [apply GeneralSections.parsed_section_up_to|].
    split; [apply GeneralSections.parsed_section_to_end|].
    split; [apply GeneralSections.parsed_section_up_to|].
    split; [apply GeneralSections.parsed_section_to_end|].
    apply GeneralSections.parsed_last_section.
Qed.

(** Header 3 in small letters comes first, then header 1; header 2 is
    absent. *)
Lemma parse_with_a_header_absent_witness :
  absent header2 (U "**3. acciones sugeridas:** c " ++ header1 ++ U " (a) ")
  /\ exists r,
       parse_gemini_response
         (U "**3. acciones sugeridas:** c " ++ header1 ++ U " (a) ") w0
       = (Ok r, w0)
       /\ analisis_breve r = U "a"
       /\ justificacion r = placeholder_justificacion
       /\ acciones_sugeridas r = U "c **1. Análisis Breve:** (a".
Proof.
  assert (Ha : absent header2
                 (U "**3. acciones sugeridas:** c " ++ header1 ++ U " (a) "))
    by (apply absent_by_search; vm_compute; reflexivity).
  split; [exact Ha|].
  destruct (@parse_with_a_header_absent Missing2
              (U "**3. acciones sugeridas:** c " ++ header1 ++ U " (a) ") w0 Ha)
    as [r [Hr [Hp [_ [H1 [_ [_ H3]]]]]]].
  exists r. split; [exact Hr|].
  assert (T1 : trimmed (U " (a) ") (analisis_breve r)).
  { apply (H1 (U "**3. acciones sugeridas:** c ") header1 (U " (a) ")).
    - reflexivity.
    - split; reflexivity.
    - apply none_before_by_search. vm_compute. reflexivity.
    - apply absent_by_search. vm_compute. reflexivity. }
  assert (T3 : trimmed (U " c " ++ header1 ++ U " (a) ") (acciones_sugeridas r)).
  { apply (H3 [] (U "**3. acciones sugeridas:**") (U " c " ++ header1 ++ U " (a) ")).
    - vm_compute. reflexivity.
    - split; reflexivity.
    - apply none_before_by_search. vm_compute. reflexivity. }
  apply trimmed_is_clean in T1, T3. rewrite T1, T3.
  split; [vm_compute; reflexivity|]. split; [exact Hp|].
  vm_compute. reflexivity.
Defined.

(** C2 as stated fails when header 2 is the absent one: in the reply
    made of header 1, the letter a, header 3 and the letter c, the headers
    that are there delimit the letter a for the first section, and the
    parser returns everything after header 1 instead. *)
Lemma parse_two_sections_counterexample :
  absent header2 (two_sections Missing2 [] (U "a") (U "c"))
  /\ none_before header1 (two_sections Missing2 [] (U "a") (U "c")) 0
  /\ none_before header3 (two_sections Missing2 [] (U "a") (U "c"))
                 (length (header1 ++ U "a"))
  /\ parse_gemini_response (two_sections Missing2 [] (U "a") (U "c")) w0
     <> (Ok (claimed_two_sections Missing2 (U "a") (U "c")), w0)
  /\ (exists r,
        parse_gemini_response (two_sections Missing2 [] (U "a") (U "c")) w0
        = (Ok r, w0)
        /\ analisis_breve r = U "a**3. Acciones Sugeridas:**c").
Proof.
  split; [apply absent_by_search; vm_compute; reflexivity|].
  split; [apply none_before_by_search; vm_compute; reflexivity|].
  split; [apply none_before_by_search; vm_compute; reflexivity|].
  split.
  - rewrite parse_gemini_response_eq. intros H.
    apply (f_equal (fun p => match fst p with
                             | Ok r => analisis_breve r
                             | Raise _ => []
                             end)) in H.
    vm_compute in H. discriminate H.
  - eexists. split; [apply parse_gemini_response_eq|].
    vm_compute. reflexivity.
Qed.



(** C4.  Whatever the section-matching machinery does, the parser never
    raises; and when that machinery errors on the reply -- the first, the
    second or the third search raises -- the parser prints one line and
    returns the fallback result, whose first field is the raw, unparsed
    text. *)
Theorem parse_with_never_raises
    (re_search : regex -> str -> flags -> M (option match_obj))
    (text : str) (w : world) :
  (exists r w', parse_with re_search text w = (Ok r, w'))
  /\ (forall e w1,
        search_raises re_search text w e w1 ->
        parse_with re_search text w
        = (Ok (fallback text),
           printed w1 (U "Error al parsear la respuesta: " ++ str_of_exn e))
        /\ analisis_breve (fallback text) = text).
Proof.
  split.
  - unfold parse_with, try_except.
    destruct (parse_try re_search text w) as [[r0|e] w1].
    + now exists r0, w1.
    + eexists. eexists. reflexivity.
  - intros e w1 H. split; [|reflexivity].
    unfold parse_with, try_except, parse_try, bind.
    destruct H as [H|[m1 [wa [H1 [H|[m2 [wb [H2 H3]]]]]]]].
    + rewrite H. reflexivity.
    + rewrite H1, H. reflexivity.
    + rewrite H1, H2, H3. reflexivity.
Qed.

(** The third search raises after two that worked. *)
Lemma parse_with_never_raises_witness :
  parse_with search_failing_last (U "texto sin secciones") w0
  = (Ok (fallback (U "texto sin secciones")),
     printed w0 (U "Error al parsear la respuesta: "
                 ++ str_of_exn (Exception "RuntimeError" (U "internal error"))))
  /\ analisis_breve (fallback (U "texto sin secciones")) = U "texto sin secciones".
Proof.
  apply (proj2 (parse_with_never_raises search_failing_last
                  (U "texto sin secciones") w0)).
  right. exists None, w0. split; [reflexivity|].
  right. exists None, w0. split; reflexivity.
Defined.

(** A search that raises on every call: the raw text comes back. *)
Example parse_with_raising_search :
  parse_with (fun _ _ _ => raise (Exception "TypeError" (U "expected string")))
             (U "texto") w0
  = (Ok (fallback (U "texto")),
     {| stdout := [U "Error al parsear la respuesta: expected string"];
        llm_calls := [];
        configured_api_key := None |}).
Proof. reflexivity. Qed.

End ParserClaims.

Unset Implicit Arguments.

(** ** Letter case of the headers *)

Module CaseFacts.

Import ReFacts ParserFacts HeaderFacts.

Lemma same_to_patterns_spec x y c :
  same_to_patterns x y = true -> In c header_alphabet ->
  lit_match parse_flags c x = lit_match parse_flags c y.
Proof.
  unfold same_to_patterns. rewrite forallb_forall. intros H Hc.
  apply eqb_prop. exact (H c Hc).
Qed.

Lemma same_to_patterns_refl x : same_to_patterns x x = true.
Proof.
  unfold same_to_patterns. apply forallb_forall. intros c _. apply eqb_reflx.
Qed.

Lemma alike_refl s : alike s s.
Proof. induction s; constructor; auto using same_to_patterns_refl. Qed.

Lemma alike_app s1 s1' s2 s2' :
  alike s1 s1' -> alike s2 s2' -> alike (s1 ++ s2) (s1' ++ s2').
Proof. apply Forall2_app. Qed.

Lemma alike_length s s' : alike s s' -> length s = length s'.
Proof. apply Forall2_length. Qed.

Lemma alike_skipn n : forall s s', alike s s' -> alike (skipn n s) (skipn n s').
Proof.
  induction n as [|n IH]; intros s s' H; [exact H|].
  destruct H; cbn [skipn]; [constructor|]. now apply IH.
Qed.

Lemma starts_with_alike h : incl h header_alphabet -> forall s s',
  alike s s' -> starts_with parse_flags h s = starts_with parse_flags h s'.
Proof.
  induction h as [|c h IH]; intros Hh s s' H; [reflexivity|].
  destruct H as [|x y s s' Hxy H]; [reflexivity|].
  cbn [starts_with].
  rewrite (same_to_patterns_spec x y c Hxy) by (apply Hh; now left).
  f_equal. apply IH; [|exact H].
  intros z Hz. apply Hh. now right.
Qed.

Lemma find_header_alike h : incl h header_alphabet -> forall s s',
  alike s s' -> find_header parse_flags h s = find_header parse_flags h s'.
Proof.
  intros Hh s s' H. induction H as [|x y s s' Hxy H IH].
  - reflexivity.
  - cbn [find_header].
    rewrite (starts_with_alike h Hh _ _ (Forall2_cons _ _ Hxy H)).
    now rewrite IH.
Qed.

Lemma until_header_alike h : incl h header_alphabet -> forall s s',
  alike s s' -> until_header parse_flags h s = until_header parse_flags h s'.
Proof.
  intros Hh s s' H. induction H as [|x y s s' Hxy H IH].
  - reflexivity.
  - cbn [until_header].
    rewrite (starts_with_alike h Hh _ _ (Forall2_cons _ _ Hxy H)).
    now rewrite IH.
Qed.

(** The span of group 1, from the closed form of the search. *)
Lemma group_span_lazy h next t :
  group_span (lazy_pattern h next) t =
  match find_header parse_flags h t with
  | Some i =>
    Some (i + length h,
          i + length h + until_header parse_flags next (skipn (i + length h) t))
  | None => None
  end.
Proof.
  unfold group_span, Re.search.
  rewrite search_from_lazy by apply parse_flags_dotall.
  now destruct (find_header parse_flags h t).
Qed.

Lemma group_span_greedy h t :
  group_span (greedy_pattern h) t =
  match find_header parse_flags h t with
  | Some i =>
    Some (i + length h, i + length h + length (skipn (i + length h) t))
  | None => None
  end.
Proof.
  unfold group_span, Re.search.
  rewrite search_from_greedy by apply parse_flags_dotall.
  now destruct (find_header parse_flags h t).
Qed.

Lemma group_span_lazy_alike h next t t' :
  incl h header_alphabet -> incl next header_alphabet -> alike t t' ->
  group_span (lazy_pattern h next) t = group_span (lazy_pattern h next) t'.
Proof.
  intros Hh Hn H. rewrite !group_span_lazy.
  rewrite (find_header_alike h Hh _ _ H).
  destruct (find_header parse_flags h t'); [|reflexivity].
  now rewrite (until_header_alike next Hn _ _ (alike_skipn _ _ _ H)).
Qed.

Lemma group_span_greedy_alike h t t' :
  incl h header_alphabet -> alike t t' ->
  group_span (greedy_pattern h) t = group_span (greedy_pattern h) t'.
Proof.
  intros Hh H. rewrite !group_span_greedy.
  rewrite (find_header_alike h Hh _ _ H).
  destruct (find_header parse_flags h t'); [|reflexivity].
  now rewrite (alike_length _ _ (alike_skipn _ _ _ H)).
Qed.

(** The captured text is the slice at the span. *)
Lemma captured_lazy_slice h next t :
  captured_lazy h next t =
  match group_span (lazy_pattern h next) t with
  | Some (b, e) => Some (slice t b e)
  | None => None
  end.
Proof.
  rewrite group_span_lazy. unfold captured_lazy.
  destruct (find_header parse_flags h t) as [i|]; [|reflexivity].
  cbn zeta. unfold slice. do 2 f_equal. lia.
Qed.

Lemma captured_greedy_slice h t :
  captured_greedy h t =
  match group_span (greedy_pattern h) t with
  | Some (b, e) => Some (slice t b e)
  | None => None
  end.
Proof.
  rewrite group_span_greedy. unfold captured_greedy.
  destruct (find_header parse_flags h t) as [i|]; [|reflexivity].
  unfold slice.
  replace (i + length h + length (skipn (i + length h) t) - (i + length h))
    with (length (skipn (i + length h) t)) by lia.
  now rewrite firstn_all.
Qed.

Lemma slice_clear pre h h' post b e :
  length h = length h' ->
  clear_of (length pre) (length h) (Some (b, e)) ->
  slice (pre ++ h ++ post) b e = slice (pre ++ h' ++ post) b e.
Proof.
  intros Hl [He|Hb]; unfold slice.
  - destruct (Nat.le_gt_cases b (length pre)) as [Hbp|Hbp].
    + rewrite !skipn_app, !firstn_app, !length_skipn.
      replace (e - b - (length pre - b)) with 0 by lia. reflexivity.
    + replace (e - b) with 0 by lia. reflexivity.
  - rewrite !skipn_app.
    rewrite (skipn_all2 pre) by lia.
    rewrite (skipn_all2 h) by lia. rewrite (skipn_all2 h') by lia.
    now rewrite Hl.
Qed.

Lemma cleaned_clear pre h h' post sp g g' ph :
  length h = length h' ->
  clear_of (length pre) (length h) sp ->
  g = match sp with Some (b, e) => Some (slice (pre ++ h ++ post) b e) | None => None end ->
  g' = match sp with Some (b, e) => Some (slice (pre ++ h' ++ post) b e) | None => None end ->
  cleaned g' ph = cleaned g ph.
Proof.
  intros Hl Hc -> ->. destruct sp as [[b e]|]; [|reflexivity].
  cbn [cleaned]. now rewrite (slice_clear pre h h' post b e Hl Hc).
Qed.

Lemma case_variant_char_alike :
  forallb (fun c => forallb (same_to_patterns c)
                            [c; unicode_tolower c; unicode_toupper c])
          header_alphabet = true.
Proof. vm_compute. reflexivity. Qed.

Lemma case_variant_alike : forall h v,
  incl h header_alphabet -> case_variant h v = true -> alike h v.
Proof.
  induction h as [|c h IH]; intros v Hh Hv; destruct v as [|x v];
    try discriminate; [constructor|].
  cbn [case_variant] in Hv. apply andb_true_iff in Hv. destruct Hv as [Hc Hv].
  constructor.
  - pose proof case_variant_char_alike as Hall.
    rewrite forallb_forall in Hall.
    specialize (Hall c (Hh c (or_introl eq_refl))).
    rewrite forallb_forall in Hall. apply Hall.
    unfold case_variant_char in Hc. apply existsb_exists in Hc.
    destruct Hc as [z [Hz Hxz]]. apply N.eqb_eq in Hxz. now subst z.
  - apply IH; [|exact Hv]. intros z Hz. apply Hh. now right.
Qed.

Lemma headers_in_alphabet h : In h headers -> incl h header_alphabet.
Proof.
  unfold headers, header_alphabet. intros [<-|[<-|[<-|[]]]] z Hz;
    rewrite !in_app_iff; auto.
Qed.

End CaseFacts.

(** ** The claim about letter case *)

Module CaseClaim.

Import ReFacts ParserFacts HeaderFacts CaseFacts.

(** C10, as the code has it.  Header matching is case-insensitive: for
    every text, replacing an occurrence of one of the three headers by a
    version that differs only in letter case leaves what each of the three
    searches captures where it was (the same span of group 1, or no match
    in both), and the parsed result is the same whenever the replaced
    occurrence lies outside the three captured spans. *)
Theorem header_case_insensitive (H h pre post : str) (w : world) :
  In H headers -> case_variant H h = true ->
  group_span pattern_analisis (pre ++ h ++ post)
  = group_span pattern_analisis (pre ++ H ++ post)
  /\ group_span pattern_justificacion (pre ++ h ++ post)
     = group_span pattern_justificacion (pre ++ H ++ post)
  /\ group_span pattern_acciones (pre ++ h ++ post)
     = group_span pattern_acciones (pre ++ H ++ post)
  /\ (clear_of (length pre) (length H)
               (group_span pattern_analisis (pre ++ H ++ post)) ->
      clear_of (length pre) (length H)
               (group_span pattern_justificacion (pre ++ H ++ post)) ->
      clear_of (length pre) (length H)
               (group_span pattern_acciones (pre ++ H ++ post)) ->
      parse_gemini_response (pre ++ h ++ post) w
      = parse_gemini_response (pre ++ H ++ post) w).
Proof.
  intros HH Hv.
  pose proof (case_variant_alike H h (headers_in_alphabet H HH) Hv) as Hhv.
  assert (Ht : alike (pre ++ H ++ post) (pre ++ h ++ post)).
  { apply alike_app; [apply alike_refl|].
    apply alike_app; [exact Hhv|apply alike_refl]. }
  assert (I1 : incl header1 header_alphabet)
    by (apply headers_in_alphabet; cbn; auto).
  assert (I2 : incl header2 header_alphabet)
    by (apply headers_in_alphabet; cbn; auto).
  assert (I3 : incl header3 header_alphabet)
    by (apply headers_in_alphabet; cbn; auto).
  change pattern_analisis with (lazy_pattern header1 header2).
  change pattern_justificacion with (lazy_pattern header2 header3).
  change pattern_acciones with (greedy_pattern header3).
  pose proof (group_span_lazy_alike header1 header2 _ _ I1 I2 Ht) as S1.
  pose proof (group_span_lazy_alike header2 header3 _ _ I2 I3 Ht) as S2.
  pose proof (group_span_greedy_alike header3 _ _ I3 Ht) as S3.
  split; [now symmetry|]. split; [now symmetry|]. split; [now symmetry|].
  intros C1 C2 C3. rewrite !parse_gemini_response_eq. f_equal. f_equal.
  pose proof (alike_length _ _ Hhv) as Hl.
  unfold parsed. f_equal.
  - apply (cleaned_clear pre H h post _ _ _ _ Hl C1).
    + apply captured_lazy_slice.
    + rewrite captured_lazy_slice. now rewrite <- S1.
  - apply (cleaned_clear pre H h post _ _ _ _ Hl C2).
    + apply captured_lazy_slice.
    + rewrite captured_lazy_slice. now rewrite <- S2.
  - apply (cleaned_clear pre H h post _ _ _ _ Hl C3).
    + apply captured_greedy_slice.
    + rewrite captured_greedy_slice. now rewrite <- S3.
Qed.

(** Header 2 in capitals, in a reply with the three sections. *)
Lemma header_case_insensitive_witness :
  case_variant header2 (U "**2. JUSTIFICACIÓN:**") = true
  /\ parse_gemini_response
       ((header1 ++ U " grave ") ++ U "**2. JUSTIFICACIÓN:**"
        ++ (U " lactato " ++ header3 ++ U " cultivos")) w0
     = parse_gemini_response
         ((header1 ++ U " grave ") ++ header2
          ++ (U " lactato " ++ header3 ++ U " cultivos")) w0.
Proof.
  split; [reflexivity|].
  refine (proj2 (proj2 (proj2
    (header_case_insensitive header2 (U "**2. JUSTIFICACIÓN:**")
       (header1 ++ U " grave ") (U " lactato " ++ header3 ++ U " cultivos") w0
       _ _))) _ _ _).
  - cbn. auto.
  - reflexivity.
  - vm_compute. lia.
  - vm_compute. lia.
  - vm_compute. lia.
Defined.

(** C10 as stated fails on a text where a header lies inside captured
    text: after header 3, header 1 is part of the actions, and writing it
    in capitals changes the third field. *)
Lemma header_case_counterexample :
  In header1 headers
  /\ case_variant header1 (U "**1. ANÁLISIS BREVE:**") = true
  /\ parse_gemini_response (header3 ++ U "**1. ANÁLISIS BREVE:**" ++ []) w0
     <> parse_gemini_response (header3 ++ header1 ++ []) w0.
Proof.
  split; [cbn; auto|]. split; [reflexivity|].
  rewrite !parse_gemini_response_eq. intros E.
  apply (f_equal (fun p => match fst p with
                           | Ok r => acciones_sugeridas r
                           | Raise _ => []
                           end)) in E.
  vm_compute in E. discriminate E.
Qed.

End CaseClaim.

(** ** [json.dumps] writes JSON *)

Module JsonFacts.

Local Open Scope N_scope.

Lemma ws_newline_indent indent level : ws (newline_indent indent level).
Proof.
  unfold ws, newline_indent. cbn [forallb]. cbn [ws_char N.eqb orb].
  generalize (indent * level)%nat. intros n.
  induction n as [|n IH]; [reflexivity|exact IH].
Qed.

Lemma ws_nil : ws [].
Proof. reflexivity. Qed.

Lemma ws_space : ws [32].
Proof. reflexivity. Qed.

Lemma below_32_cases (c : N) :
  c < 32 -> In c (map N.of_nat (seq 0 32)).
Proof.
  intros Hc. rewrite <- (N2Nat.id c). apply in_map. apply in_seq. lia.
Qed.

Lemma hex4_below_32 (c : N) :
  c < 32 -> hex4 48 48 (hex_digit (c / 16)) (hex_digit (c mod 16)) = Some c.
Proof.
  intros Hc.
  assert (Hall : forallb (fun c =>
             match hex4 48 48 (hex_digit (c / 16)) (hex_digit (c mod 16)) with
             | Some d => d =? c
             | None => false
             end) (map N.of_nat (seq 0 32)) = true) by (vm_compute; reflexivity).
  rewrite forallb_forall in Hall. specialize (Hall c (below_32_cases c Hc)).
  destruct (hex4 48 48 (hex_digit (c / 16)) (hex_digit (c mod 16)));
    [|discriminate].
  apply N.eqb_eq in Hall. now subst.
Qed.

(** The escaping of [json.dumps] is read back by JSON as the same
    character. *)
Lemma json_chars_escape_char c b s :
  json_chars b s -> json_chars (escape_char c ++ b) (c :: s).
Proof.
  intros H. unfold escape_char.
  destruct (c =? 92) eqn:E92.
  { apply N.eqb_eq in E92. subst. now apply (@JC_escape 92 92). }
  destruct (c =? 34) eqn:E34.
  { apply N.eqb_eq in E34. subst. now apply (@JC_escape 34 34). }
  destruct (c =? 8) eqn:E8.
  { apply N.eqb_eq in E8. subst. now apply (@JC_escape 98 8). }
  destruct (c =? 12) eqn:E12.
  { apply N.eqb_eq in E12. subst. now apply (@JC_escape 102 12). }
  destruct (c =? 10) eqn:E10.
  { apply N.eqb_eq in E10. subst. now apply (@JC_escape 110 10). }
  destruct (c =? 13) eqn:E13.
  { apply N.eqb_eq in E13. subst. now apply (@JC_escape 114 13). }
  destruct (c =? 9) eqn:E9.
  { apply N.eqb_eq in E9. subst. now apply (@JC_escape 116 9). }
  destruct (c <? 32) eqn:E32.
  { apply N.ltb_lt in E32. cbn [app].
    apply JC_unicode; [now apply hex4_below_32|exact H]. }
  cbn [app]. apply JC_plain; [|exact H].
  unfold unescaped. rewrite E34, E92. apply N.ltb_ge in E32.
  apply N.leb_le in E32. now rewrite E32.
Qed.

Lemma json_chars_escaped s : json_chars (flat_map escape_char s) s.
Proof.
  induction s as [|c s IH]; [constructor|].
  cbn [flat_map]. now apply json_chars_escape_char.
Qed.

(** *** Integers *)

Lemma skip_digits_digit_chars d r :
  skip_digits (digit_chars d ++ r) = skip_digits r.
Proof.
  unfold digit_chars. induction d; cbn; auto.
Qed.

Lemma nzhead_not_D0 d d' : Decimal.nzhead d <> Decimal.D0 d'.
Proof. induction d; cbn; try discriminate. exact IHd. Qed.

Lemma to_uint_normal p : Decimal.unorm (Pos.to_uint p) = Pos.to_uint p.
Proof.
  pose proof (DecimalPos.Unsigned.to_of (Pos.to_uint p)) as H.
  rewrite DecimalPos.Unsigned.of_to in H. cbn in H. now symmetry.
Qed.

Lemma to_uint_not_D0 p d' : Pos.to_uint p <> Decimal.D0 d'.
Proof.
  intros H. pose proof (to_uint_normal p) as Hn.
  rewrite H in Hn. unfold Decimal.unorm in Hn. cbn [Decimal.nzhead] in Hn.
  destruct (Decimal.nzhead d') eqn:E.
  - injection Hn as <-. exact (DecimalPos.Unsigned.to_uint_nonzero p H).
  - exact (nzhead_not_D0 d' _ E).
  - discriminate. - discriminate. - discriminate. - discriminate.
  - discriminate. - discriminate. - discriminate. - discriminate.
  - discriminate.
Qed.

Lemma json_number_digits d :
  d <> Decimal.Nil -> (forall d', d <> Decimal.D0 d') ->
  json_number (digit_chars d) = true
  /\ json_number (45 :: digit_chars d) = true.
Proof.
  intros Hnil H0.
  destruct d as [|d|d|d|d|d|d|d|d|d|d];
    try (exfalso; now apply Hnil); try (exfalso; now apply (H0 d));
    unfold json_number;
    change (digit_chars (?D d)) with (N_of_ascii
      (match NilEmpty.string_of_uint (D d) with
       | String a _ => a | EmptyString => Ascii.zero end) :: digit_chars d);
    cbn - [digit_chars skip_digits frac_part];
    rewrite <- (app_nil_r (digit_chars d)), skip_digits_digit_chars;
    split; reflexivity.
Qed.

Lemma str_of_Z_number z : json_number (str_of_Z z) = true.
Proof.
  unfold str_of_Z. destruct z as [|p|p].
  - reflexivity.
  - cbn [Z.to_int NilZero.string_of_int]. unfold NilZero.string_of_uint.
    pose proof (DecimalPos.Unsigned.to_uint_nonnil p) as Hnil.
    pose proof (to_uint_not_D0 p) as H0.
    destruct (json_number_digits _ Hnil H0) as [H _].
    unfold digit_chars in H.
    destruct (Pos.to_uint p); try exact H. now exfalso.
  - cbn [Z.to_int NilZero.string_of_int]. unfold NilZero.string_of_uint.
    pose proof (DecimalPos.Unsigned.to_uint_nonnil p) as Hnil.
    pose proof (to_uint_not_D0 p) as H0.
    destruct (json_number_digits _ Hnil H0) as [_ H].
    unfold digit_chars in H.
    destruct (Pos.to_uint p); try exact H. now exfalso.
Qed.

Lemma str_of_Z_value z : Z_of_str (str_of_Z z) = Some z.
Proof.
  unfold Z_of_str, str_of_Z.
  rewrite map_map.
  rewrite (map_ext _ (fun a => a)) by apply ascii_N_embedding.
  rewrite map_id, string_of_list_ascii_of_string.
  rewrite NilZero.isi.
  - cbn [option_map]. now rewrite DecimalZ.of_to.
  - destruct z; cbn; try discriminate; intros H; injection H as H;
      now apply (DecimalPos.Unsigned.to_uint_nonnil p).
  - destruct z; cbn; try discriminate; intros H; injection H as H;
      now apply (DecimalPos.Unsigned.to_uint_nonnil p).
Qed.

End JsonFacts.

Module DumpsFacts.

Import JsonFacts.

Local Open Scope N_scope.

Ltac norm_app :=
  repeat first [progress cbn [app] | rewrite <- app_assoc]; reflexivity.

Section Encoder.

Variable float_repr : spec_float -> str.

(** Python writes a finite float as a JSON number. *)
Hypothesis float_repr_number :
  forall f, is_finite f = true -> json_number (float_repr f) = true.

Lemma json_text_eq s s' v :
  s = s' -> json_text float_repr s v -> json_text float_repr s' v.
Proof. now intros ->. Qed.

Lemma json_elements_eq s s' l :
  s = s' -> json_elements float_repr s l -> json_elements float_repr s' l.
Proof. now intros ->. Qed.

Lemma json_members_eq s s' m :
  s = s' -> json_members float_repr s m -> json_members float_repr s' m.
Proof. now intros ->. Qed.

Lemma join_cons2 (sep x y : str) (rest : list str) :
  join sep (x :: y :: rest) = x ++ sep ++ join sep (y :: rest).
Proof. reflexivity. Qed.

Lemma elements_join w1 w0 :
  ws w1 -> ws w0 -> forall texts l,
  Forall2 (json_text float_repr) texts l -> l <> [] ->
  json_elements float_repr (w1 ++ join ([44] ++ w1) texts ++ w0) l.
Proof.
  intros H1 H0 texts l H. induction H as [|t v texts l Ht H IH]; intros Hne.
  - now exfalso.
  - destruct H as [|t' v' texts l Ht' H].
    + cbn [join]. now apply JE_one.
    + rewrite join_cons2.
      apply (json_elements_eq
               (w1 ++ t ++ [] ++ [44]
                ++ (w1 ++ join ([44] ++ w1) (t' :: texts) ++ w0)));
        [norm_app|].
      apply JE_cons; auto using ws_nil. apply IH. discriminate.
Qed.

(** The members of an object, each written as the encoder writes it. *)
Lemma members_join w1 w0 :
  ws w1 -> ws w0 -> forall texts m,
  Forall2 (fun t kv => json_text float_repr t (snd kv)) texts m -> m <> [] ->
  json_members float_repr
    (w1 ++ join ([44] ++ w1)
                (map (fun p => encode_basestring (fst (snd p)) ++ [58; 32] ++ fst p)
                     (combine texts m))
     ++ w0) m.
Proof.
  intros H1 H0 texts m H. induction H as [|t kv texts m Ht H IH]; intros Hne.
  - now exfalso.
  - destruct kv as [k v]. cbn [snd] in Ht.
    destruct H as [|t' kv' texts m Ht' H].
    + cbn [combine map join fst snd].
      apply (json_members_eq
               (w1 ++ [34] ++ flat_map escape_char k ++ [34] ++ [] ++ [58]
                ++ [32] ++ t ++ w0));
        [unfold encode_basestring, dquote; norm_app|].
      apply JM_one; auto using ws_nil, ws_space, json_chars_escaped.
    + change (combine (t :: t' :: texts) ((k, v) :: kv' :: m))
        with ((t, (k, v)) :: (t', kv') :: combine texts m).
      cbn [map]. rewrite join_cons2. cbn [fst snd].
      apply (json_members_eq
               (w1 ++ [34] ++ flat_map escape_char k ++ [34] ++ [] ++ [58]
                ++ [32] ++ t ++ [] ++ [44]
                ++ (w1 ++ join ([44] ++ w1)
                      (map (fun p => encode_basestring (fst (snd p)) ++ [58; 32] ++ fst p)
                           (combine (t' :: texts) (kv' :: m)))
                    ++ w0)));
        [unfold encode_basestring, dquote; cbn [combine map fst snd]; norm_app|].
      apply JM_cons; auto using ws_nil, ws_space, json_chars_escaped.
      apply IH. discriminate.
Qed.

Lemma map_combine_texts (enc : json -> str) (m : list (str * json)) :
  map (fun p => encode_basestring (fst (snd p)) ++ [58; 32] ++ fst p)
      (combine (map (fun kv => enc (snd kv)) m) m)
  = map (fun kv => encode_basestring (fst kv) ++ [58; 32] ++ enc (snd kv)) m.
Proof.
  induction m as [|kv m IH]; [reflexivity|]. cbn [map combine fst snd].
  now rewrite IH.
Qed.

(** What [json.dumps] writes for a value with finite floats is a JSON
    text for that value, at every nesting level. *)
Lemma iterencode_json_text (v : json) :
  finite_floats v = true ->
  forall level, json_text float_repr (iterencode float_repr 2%nat level v) v.
Proof.
  induction v as [ |b|z|f|s|l IH|m IH] using json_induction; intros Hf level.
  - apply JT_null.
  - destruct b; [apply JT_true|apply JT_false].
  - apply JT_int; [apply str_of_Z_number|apply str_of_Z_value].
  - cbn [finite_floats] in Hf. cbn [iterencode].
    assert (E : floatstr float_repr f = float_repr f)
      by (destruct f; try discriminate; reflexivity).
    rewrite E. apply JT_float; [now apply float_repr_number|reflexivity].
  - cbn [iterencode]. apply JT_str. apply json_chars_escaped.
  - destruct l as [|x l].
    + apply (@JT_arr_empty float_repr []). reflexivity.
    + cbn [iterencode].
      apply (json_text_eq
               ([91] ++ (newline_indent 2%nat (S level)
                         ++ join ([44] ++ newline_indent 2%nat (S level))
                                 (map (iterencode float_repr 2%nat (S level)) (x :: l))
                         ++ newline_indent 2%nat level) ++ [93]));
        [norm_app|].
      apply JT_arr. apply elements_join; try apply ws_newline_indent;
        [|discriminate].
      cbn [finite_floats] in Hf. rewrite forallb_forall in Hf.
      rewrite Forall_forall in IH.
      clear - IH Hf. induction (x :: l) as [|y ys IHys]; [constructor|].
      cbn [map]. constructor.
      * apply IH; [now left|]. apply Hf. now left.
      * apply IHys; intros z Hz;
          [exact (IH z (or_intror Hz))|exact (Hf z (or_intror Hz))].
  - destruct m as [|kv m].
    + apply (@JT_obj_empty float_repr []). reflexivity.
    + cbn [iterencode].
      apply (json_text_eq
               ([123] ++ (newline_indent 2%nat (S level)
                          ++ join ([44] ++ newline_indent 2%nat (S level))
                               (map (fun kv =>
                                       encode_basestring (fst kv) ++ [58; 32]
                                       ++ iterencode float_repr 2%nat (S level) (snd kv))
                                    (kv :: m))
                          ++ newline_indent 2%nat level) ++ [125]));
        [norm_app|].
      apply JT_obj.
      rewrite <- (map_combine_texts (iterencode float_repr 2%nat (S level))).
      apply members_join; try apply ws_newline_indent; [|discriminate].
      cbn [finite_floats] in Hf. rewrite forallb_forall in Hf.
      rewrite Forall_forall in IH.
      clear - IH Hf. induction (kv :: m) as [|y ys IHys]; [constructor|].
      cbn [map]. constructor.
      * apply IH; [now left|]. apply Hf. now left.
      * apply IHys; intros z Hz;
          [exact (IH z (or_intror Hz))|exact (Hf z (or_intror Hz))].
Qed.

Lemma json_dumps_json_text (v : json) :
  finite_floats v = true -> json_text float_repr (json_dumps float_repr v) v.
Proof. intros H. now apply iterencode_json_text. Qed.

End Encoder.

Lemma finite_floats_strings (l : list str) :
  finite_floats (JArr (map JStr l)) = true.
Proof.
  cbn [finite_floats]. apply forallb_forall. intros x Hx.
  apply in_map_iff in Hx. destruct Hx as [s [<- _]]. reflexivity.
Qed.

End DumpsFacts.

(** ** [str.format] on the template *)

Module FormatFacts.

Local Open Scope N_scope.

Section Format.

Variable float_repr : spec_float -> str.
Variable kwargs : list (str * pyval).

Lemma prepend_prepend (a b : str) (r : result str) :
  prepend a (prepend b r) = prepend (a ++ b) r.
Proof. destruct r; cbn; [now rewrite app_assoc|reflexivity]. Qed.

Lemma prepend_nil (r : result str) : prepend [] r = r.
Proof. now destruct r. Qed.

Lemma format_scan_in_field (c : char) (t acc : str) :
  format_scan float_repr kwargs (c :: t) (Some acc) =
  if c =? 125 then
    match kw_get kwargs (rev acc) with
    | Some v => prepend (py_str float_repr v) (format_scan float_repr kwargs t None)
    | None => Raise (key_error (rev acc))
    end
  else if field_special c then
    Raise (Exception "ValueError" (U "unsupported replacement field"))
  else format_scan float_repr kwargs t (Some (c :: acc)).
Proof. reflexivity. Qed.

Lemma format_scan_in_text (c : char) (t : str) :
  (c =? 123) = false -> (c =? 125) = false ->
  format_scan float_repr kwargs (c :: t) None
  = prepend [c] (format_scan float_repr kwargs t None).
Proof. intros H1 H2. cbn [format_scan]. now rewrite H1, H2. Qed.

Lemma format_scan_literal (s rest : str) :
  forallb no_brace s = true ->
  format_scan float_repr kwargs (s ++ rest) None = prepend s (format_scan float_repr kwargs rest None).
Proof.
  induction s as [|c s IH]; intros Hs.
  - cbn [app]. now rewrite prepend_nil.
  - cbn [forallb] in Hs. apply andb_true_iff in Hs. destruct Hs as [Hc Hs].
    unfold no_brace in Hc. apply andb_true_iff in Hc. destruct Hc as [H1 H2].
    apply negb_true_iff in H1, H2.
    cbn [app]. rewrite (format_scan_in_text _ _ H1 H2), (IH Hs).
    now rewrite prepend_prepend.
Qed.

Lemma format_scan_name (n acc rest : str) :
  forallb name_char n = true ->
  format_scan float_repr kwargs (n ++ 125 :: rest) (Some acc) =
  match kw_get kwargs (rev acc ++ n) with
  | Some v => prepend (py_str float_repr v) (format_scan float_repr kwargs rest None)
  | None => Raise (key_error (rev acc ++ n))
  end.
Proof.
  revert acc. induction n as [|c n IH]; intros acc Hn.
  - cbn [app]. rewrite format_scan_in_field, N.eqb_refl, app_nil_r. reflexivity.
  - cbn [forallb] in Hn. apply andb_true_iff in Hn. destruct Hn as [Hc Hn].
    unfold name_char in Hc. apply andb_true_iff in Hc. destruct Hc as [H1 H2].
    apply negb_true_iff in H1, H2.
    cbn [app]. rewrite format_scan_in_field, H1, H2.
    refine (eq_trans (IH (c :: acc) Hn) _).
    cbn [rev]. now rewrite <- app_assoc.
Qed.

Lemma format_scan_field (n rest : str) :
  forallb name_char n = true ->
  format_scan float_repr kwargs ([123] ++ n ++ [125] ++ rest) None =
  match kw_get kwargs n with
  | Some v => prepend (py_str float_repr v) (format_scan float_repr kwargs rest None)
  | None => Raise (key_error n)
  end.
Proof.
  intros Hn. cbn [app]. cbn [format_scan]. rewrite N.eqb_refl.
  assert (E : match n ++ 125 :: rest with
              | 123 :: t'' => prepend [123] (format_scan float_repr kwargs t'' None)
              | _ => format_scan float_repr kwargs (n ++ 125 :: rest) (Some [])
              end = format_scan float_repr kwargs (n ++ 125 :: rest) (Some [])).
  { destruct n as [|c n]; [reflexivity|].
    cbn [forallb] in Hn. apply andb_true_iff in Hn. destruct Hn as [Hc _].
    unfold name_char, field_special in Hc.
    destruct (c =? 123) eqn:E123.
    - rewrite !andb_true_iff in Hc. destruct Hc as [_ Hc]. discriminate Hc.
    - cbn [app]. destruct c as [|p]; [reflexivity|].
      destruct (N.eqb_spec (N.pos p) 123) as [->|Hne]; [discriminate|].
      destruct p; try reflexivity;
        repeat (match goal with
                | |- context [match ?q with _ => _ end] =>
                  destruct q; try reflexivity
                end); now exfalso. }
  rewrite E. now apply format_scan_name.
Qed.

Lemma format_scan_segments (segs : list segment) :
  forallb segment_ok segs = true ->
  format_scan float_repr kwargs (template_text segs) None = fill float_repr kwargs segs.
Proof.
  induction segs as [|seg segs IH]; intros Hok; [reflexivity|].
  cbn [forallb] in Hok. apply andb_true_iff in Hok. destruct Hok as [Hseg Hok].
  destruct seg as [s|n]; cbn [template_text fill segment_ok] in *.
  - rewrite (format_scan_literal _ _ Hseg). now rewrite (IH Hok).
  - rewrite (format_scan_field _ _ Hseg). now rewrite (IH Hok).
Qed.

Lemma fill_resolved (segs : list segment) :
  forallb (resolves kwargs) segs = true ->
  fill float_repr kwargs segs = Ok (flat_map (segment_out float_repr kwargs) segs).
Proof.
  induction segs as [|seg segs IH]; intros Hr; [reflexivity|].
  cbn [forallb] in Hr. apply andb_true_iff in Hr. destruct Hr as [Hseg Hr].
  destruct seg as [s|n]; cbn [fill flat_map segment_out resolves] in *.
  - now rewrite (IH Hr).
  - destruct (kw_get kwargs n); [|discriminate]. now rewrite (IH Hr).
Qed.

Lemma contains_segment_out (segs : list segment) (seg : segment) :
  In seg segs ->
  contains (flat_map (segment_out float_repr kwargs) segs)
           (segment_out float_repr kwargs seg).
Proof.
  intros Hin. apply in_split in Hin. destruct Hin as [l1 [l2 ->]].
  rewrite flat_map_app. cbn [flat_map].
  now exists (flat_map (segment_out float_repr kwargs) l1),
             (flat_map (segment_out float_repr kwargs) l2).
Qed.

Lemma contains_field (segs : list segment) (n : str) (v : pyval) :
  In (SField n) segs -> kw_get kwargs n = Some v ->
  contains (flat_map (segment_out float_repr kwargs) segs) (py_str float_repr v).
Proof.
  intros Hin Hv. pose proof (contains_segment_out segs _ Hin) as H.
  cbn [segment_out] in H. now rewrite Hv in H.
Qed.

End Format.

Lemma In_field_names (segs : list segment) (n : str) :
  In n (field_names segs) -> In (SField n) segs.
Proof.
  unfold field_names. rewrite in_flat_map. intros [seg [Hseg Hn]].
  destruct seg as [s|m]; [destruct Hn|].
  destruct Hn as [->|[]]. exact Hseg.
Qed.

Lemma prompt_segments_text : template_text prompt_segments = prompt_base.
Proof. vm_compute. reflexivity. Qed.

Lemma prompt_segments_ok : forallb segment_ok prompt_segments = true.
Proof. vm_compute. reflexivity. Qed.

End FormatFacts.

(** ** The prompt renderer *)

Module PromptClaims.

Import JsonFacts DumpsFacts FormatFacts.

Lemma eqb_str_eq (a b : str) : eqb_str a b = true -> a = b.
Proof.
  revert b. induction a as [|x a IH]; intros [|y b]; cbn; try discriminate.
  - reflexivity.
  - rewrite andb_true_iff. intros [Hxy Hab].
    apply N.eqb_eq in Hxy. subst. now rewrite (IH b Hab).
Qed.

Lemma In_by_eqb (n : str) (l : list str) :
  existsb (eqb_str n) l = true -> In n l.
Proof.
  rewrite existsb_exists. intros [x [Hx E]]. apply eqb_str_eq in E. now subst.
Qed.

Section Renderer.

Variable float_repr : spec_float -> str.

Lemma prompt_kwargs_resolve (data : PatientData) :
  forallb (resolves (prompt_kwargs float_repr data)) prompt_segments = true.
Proof. vm_compute. reflexivity. Qed.

(** Formatting never raises: every field of the template is among the
    keyword arguments. *)
Lemma render_prompt_eq (data : PatientData) :
  render_prompt float_repr data = Ok (rendered float_repr data).
Proof.
  unfold render_prompt, format. rewrite <- prompt_segments_text.
  rewrite (format_scan_segments _ _ _ prompt_segments_ok).
  apply fill_resolved. apply prompt_kwargs_resolve.
Qed.

Lemma rendered_contains (data : PatientData) (n : str) (v : pyval) :
  existsb (eqb_str n) (field_names prompt_segments) = true ->
  kw_get (prompt_kwargs float_repr data) n = Some v ->
  contains (rendered float_repr data) (py_str float_repr v).
Proof.
  intros Hn Hv. apply (contains_field _ _ _ n v); [|exact Hv].
  apply In_field_names. now apply In_by_eqb.
Qed.

End Renderer.

(** C5, as the code has it.  For every patient the prompt is rendered
    without error and contains the text of each of the ten scalar fields,
    the two free-text fields, a JSON text for the list of comorbidities,
    and what [json.dumps] writes for the map of prior values; that last
    text is a JSON text for the map when the floats in the map are finite.
    (Python writes a finite float as a JSON number; a NaN or an infinity
    is written as NaN, Infinity or -Infinity, which JSON does not
    have.) *)
Theorem render_prompt_contains (float_repr : spec_float -> str)
    (data : PatientData) :
  (forall f, is_finite f = true -> json_number (float_repr f) = true) ->
  exists prompt,
    render_prompt float_repr data = Ok prompt
    /\ contains prompt (str_of_Z (frecuencia_cardiaca data))
    /\ contains prompt (presion_arterial data)
    /\ contains prompt (str_of_Z (frecuencia_respiratoria data))
    /\ contains prompt (float_repr (temperatura_corporal data))
    /\ contains prompt (str_of_Z (saturacion_oxigeno data))
    /\ contains prompt (float_repr (procalcitonina data))
    /\ contains prompt (float_repr (lactato data))
    /\ contains prompt (float_repr (pcr data))
    /\ contains prompt (float_repr (leucocitos data))
    /\ contains prompt (str_of_Z (porcentaje_ia data))
    /\ contains prompt (texto_patologias_presentes data)
    /\ contains prompt (texto_sintomas_diarios data)
    /\ (exists s, contains prompt s
          /\ json_text float_repr s
               (JArr (map JStr (array_json_comorbilidades data))))
    /\ contains prompt
         (json_dumps float_repr (JObj (objeto_json_valores_previos data)))
    /\ (well_formed data = true ->
        json_text float_repr
          (json_dumps float_repr (JObj (objeto_json_valores_previos data)))
          (JObj (objeto_json_valores_previos data))).
Proof.
  intros Hrepr. exists (rendered float_repr data).
  split; [apply render_prompt_eq|].
  repeat match goal with
  | |- contains _ _ /\ _ => split
  end.
  - exact (rendered_contains float_repr data (U "FRECUENCIA_CARDIACA") _ eq_refl eq_refl).
  - exact (rendered_contains float_repr data (U "PRESION_ARTERIAL") _ eq_refl eq_refl).
  - exact (rendered_contains float_repr data (U "FRECUENCIA_RESPIRATORIA") _ eq_refl eq_refl).
  - exact (rendered_contains float_repr data (U "TEMPERATURA_CORPORAL") _ eq_refl eq_refl).
  - exact (rendered_contains float_repr data (U "SATURACION_OXIGENO") _ eq_refl eq_refl).
  - exact (rendered_contains float_repr data (U "PROCALCITONINA") _ eq_refl eq_refl).
  - exact (rendered_contains float_repr data (U "LACTATO") _ eq_refl eq_refl).
  - exact (rendered_contains float_repr data (U "PCR") _ eq_refl eq_refl).
  - exact (rendered_contains float_repr data (U "LEUCOCITOS") _ eq_refl eq_refl).
  - exact (rendered_contains float_repr data (U "PORCENTAJE_IA") _ eq_refl eq_refl).
  - exact (rendered_contains float_repr data (U "TEXTO_PATOLOGIAS_PRESENTES") _ eq_refl eq_refl).
  - exact (rendered_contains float_repr data (U "TEXTO_SINTOMAS_DIARIOS") _ eq_refl eq_refl).
  - split; [|split].
    + exists (json_dumps float_repr (JArr (map JStr (array_json_comorbilidades data)))).
      split.
      * exact (rendered_contains float_repr data (U "ARRAY_JSON_COMORBILIDADES") _
                 eq_refl eq_refl).
      * apply json_dumps_json_text; [exact Hrepr|apply finite_floats_strings].
    + exact (rendered_contains float_repr data (U "OBJETO_JSON_VALORES_PREVIOS") _
               eq_refl eq_refl).
    + intros Hwf. apply json_dumps_json_text; [exact Hrepr|exact Hwf].
Qed.

Lemma example_repr_number (f : spec_float) :
  is_finite f = true -> json_number (example_repr f) = true.
Proof.
  intros _. unfold example_repr.
  repeat match goal with
  | |- context [if ?b then _ else _] => destruct b
  end; reflexivity.
Qed.

Lemma example_data_well_formed : well_formed example_data = true.
Proof. vm_compute. reflexivity. Qed.

Lemma example_data_texts :
  str_of_Z (frecuencia_cardiaca example_data) = U "125"
  /\ presion_arterial example_data = U "85/45"
  /\ example_repr (temperatura_corporal example_data) = U "39.1"
  /\ texto_sintomas_diarios example_data = U "Confusión aguda, disnea severa.".
Proof. vm_compute. repeat split. Qed.

(** The example patient of the field declarations. *)
Lemma render_prompt_contains_witness :
  exists prompt,
    render_prompt example_repr example_data = Ok prompt
    /\ contains prompt (U "125")
    /\ contains prompt (U "85/45")
    /\ contains prompt (U "39.1")
    /\ contains prompt (U "Confusión aguda, disnea severa.")
    /\ json_text example_repr
         (json_dumps example_repr
            (JObj (objeto_json_valores_previos example_data)))
         (JObj (objeto_json_valores_previos example_data)).
Proof.
  destruct (render_prompt_contains example_repr example_data
              example_repr_number)
    as [prompt [Hp [H1 [H2 [_ [H4 [_ [_ [_ [_ [_ [_ [_ [H12 [_ [_ Hj]]]]]]]]]]]]]]]].
  destruct example_data_texts as [E1 [E2 [E4 E12]]].
  rewrite E1 in H1. rewrite E2 in H2. rewrite E4 in H4. rewrite E12 in H12.
  exists prompt. split; [exact Hp|].
  split; [exact H1|]. split; [exact H2|]. split; [exact H4|].
  split; [exact H12|exact (Hj example_data_well_formed)].
Defined.

Lemma repr_with_nan_number (f : spec_float) :
  is_finite f = true -> json_number (repr_with_nan f) = true.
Proof.
  intros H. destruct f; try discriminate H; apply example_repr_number; reflexivity.
Qed.

(** C5 as stated fails for a patient whose map of prior values holds a
    NaN: the prompt carries the text that [json.dumps] writes for the map,
    with NaN in it, and no JSON text stands for that map. *)
Lemma render_prompt_nan_counterexample :
  (forall f, is_finite f = true -> json_number (repr_with_nan f) = true)
  /\ exists prompt,
       render_prompt repr_with_nan nan_data = Ok prompt
       /\ json_dumps repr_with_nan (JObj (objeto_json_valores_previos nan_data))
          = nan_map_text
       /\ contains prompt nan_map_text
       /\ ~ (exists s,
               contains prompt s
               /\ json_text repr_with_nan s
                    (JObj (objeto_json_valores_previos nan_data))).
Proof.
  split; [exact repr_with_nan_number|].
  exists (rendered repr_with_nan nan_data).
  split; [apply render_prompt_eq|].
  assert (E : json_dumps repr_with_nan (JObj (objeto_json_valores_previos nan_data))
              = nan_map_text) by (vm_compute; reflexivity).
  split; [exact E|]. split.
  - rewrite <- E.
    exact (rendered_contains repr_with_nan nan_data
             (U "OBJETO_JSON_VALORES_PREVIOS") _ eq_refl eq_refl).
  - intros [s [_ H]]. cbn [objeto_json_valores_previos nan_data] in H.
    inversion H as [| | | | | | | | |body m Hm]; subst.
    inversion Hm; subst.
    + match goal with
      | Hf : json_text _ _ (JFloat S754_nan) |- _ => inversion Hf; subst
      end.
      match goal with
      | Hn : json_number _ = true |- _ => vm_compute in Hn; discriminate Hn
      end.
    + match goal with
      | Hr : json_members _ _ [] |- _ => inversion Hr
      end.
Qed.

End PromptClaims.

(** ** The endpoint, the boundary and start-up *)

Module ServiceClaims.

Import ParserFacts PromptClaims.

Section Endpoint.

Variable float_repr : spec_float -> str.
Variable generate_content : llm_call -> result GenerateContentResponse.

(** The body of the [try], once the prompt is rendered: one call, then
    the reply is read and parsed. *)
Lemma analyze_try_eq (data : PatientData) (w : world) :
  analyze_try float_repr generate_content data w =
  match generate_content (analyze_call (rendered float_repr data)) with
  | Ok response =>
    match text response with
    | Ok t => (Ok (parsed t), after_call w (rendered float_repr data) [])
    | Raise e => (Raise e, after_call w (rendered float_repr data) [])
    end
  | Raise e => (Raise e, after_call w (rendered float_repr data) [])
  end.
Proof.
  unfold analyze_try, bind, lift, call_generate_content.
  rewrite render_prompt_eq. unfold after_call. rewrite app_nil_r.
  destruct (generate_content (analyze_call (rendered float_repr data)))
    as [response|e]; [|reflexivity].
  destruct (text response) as [t|e]; [|reflexivity].
  now rewrite parse_gemini_response_eq.
Qed.

Lemma analyze_endpoint_eq (data : PatientData) (w : world) :
  analyze_patient_endpoint float_repr generate_content data w =
  match analyze_try float_repr generate_content data w with
  | (Ok parsed_response, w') => (Ok (Response200 parsed_response), w')
  | (Raise e, w') =>
    (Ok (ResponseError 500 (U "Error al procesar la solicitud: " ++ str_of_exn e)),
     {| stdout := stdout w'
                  ++ [U "Error en el endpoint /analyze_patient: " ++ str_of_exn e];
        llm_calls := llm_calls w';
        configured_api_key := configured_api_key w' |})
  end.
Proof.
  unfold analyze_patient_endpoint, try_except, bind.
  destruct (analyze_try float_repr generate_content data w) as [[r|e] w'];
    reflexivity.
Qed.

End Endpoint.

(** C6.  For every request body that lacks a field of [PatientData] or
    gives one a value of the wrong type, the route answers with the
    validation error (status 422) and the world is left as it was: no call
    to the hosted model is made. *)
Theorem invalid_body_is_rejected (float_repr : spec_float -> str)
    (generate_content : llm_call -> result GenerateContentResponse)
    (body : json) (name : str) (t : ftype) (w : world) :
  In (name, t) patient_fields ->
  field_missing_or_mistyped body name t ->
  post_analyze float_repr generate_content body w
  = (Ok ResponseValidationError, w)
  /\ status_of ResponseValidationError = 422%Z
  /\ llm_calls (snd (post_analyze float_repr generate_content body w))
     = llm_calls w.
Proof.
  intros Hin Hbad.
  assert (E : validate_patient body = None).
  { unfold validate_patient. destruct body; try reflexivity.
    assert (C : conforms m = false).
    { unfold conforms. apply not_true_is_false. intros Hall.
      rewrite forallb_forall in Hall. specialize (Hall _ Hin).
      unfold field_ok in Hall. cbn [fst snd] in Hall.
      unfold field_missing_or_mistyped, field_of in Hbad.
      destruct (get m name); [congruence|discriminate]. }
    now rewrite C. }
  unfold post_analyze. rewrite E. repeat split.
Qed.

Lemma invalid_body_is_rejected_witness :
  post_analyze example_repr (fun _ => Raise (Exception "unused" []))
    (JObj [(U "frecuencia_cardiaca", JStr (U "rapida"))]) w0
  = (Ok ResponseValidationError, w0).
Proof.
  refine (proj1 (invalid_body_is_rejected example_repr
                   (fun _ => Raise (Exception "unused" []))
                   (JObj [(U "frecuencia_cardiaca", JStr (U "rapida"))])
                   (U "frecuencia_cardiaca") TInt w0 _ _)).
  - left. reflexivity.
  - reflexivity.
Defined.

(** C7.  For every request on which the call to the hosted model raises,
    the endpoint catches the exception and answers with status 500 and a
    detail that ends with the message of the exception; the call was made
    once and one line was printed. *)
Theorem llm_failure_is_500 (float_repr : spec_float -> str)
    (generate_content : llm_call -> result GenerateContentResponse)
    (data : PatientData) (prompt : str) (e : exn) (w : world) :
  render_prompt float_repr data = Ok prompt ->
  generate_content (analyze_call prompt) = Raise e ->
  exists detail,
    analyze_patient_endpoint float_repr generate_content data w
    = (Ok (ResponseError 500 detail),
       after_call w prompt
         [U "Error en el endpoint /analyze_patient: " ++ str_of_exn e])
    /\ detail = U "Error al procesar la solicitud: " ++ str_of_exn e
    /\ contains detail (str_of_exn e)
    /\ status_of (ResponseError 500 detail) = 500%Z.
Proof.
  intros Hp He. rewrite render_prompt_eq in Hp. injection Hp as <-.
  exists (U "Error al procesar la solicitud: " ++ str_of_exn e).
  rewrite analyze_endpoint_eq, analyze_try_eq, He.
  split; [|split; [reflexivity|split; [|reflexivity]]].
  - unfold after_call. cbn [stdout llm_calls configured_api_key].
    now rewrite app_nil_r.
  - exists (U "Error al procesar la solicitud: "), []. now rewrite app_nil_r.
Qed.

Lemma llm_failure_is_500_witness :
  exists detail w',
    analyze_patient_endpoint example_repr
      (fun _ => Raise (Exception "DeadlineExceeded" (U "504 Deadline Exceeded")))
      example_data w0
    = (Ok (ResponseError 500 detail), w')
    /\ detail = U "Error al procesar la solicitud: 504 Deadline Exceeded".
Proof.
  destruct (llm_failure_is_500 example_repr
              (fun _ => Raise (Exception "DeadlineExceeded" (U "504 Deadline Exceeded")))
              example_data (rendered example_repr example_data)
              (Exception "DeadlineExceeded" (U "504 Deadline Exceeded")) w0
              (render_prompt_eq example_repr example_data) eq_refl)
    as [detail [H1 [H2 _]]].
  exists detail. eexists. split; [exact H1|].
  rewrite H2. vm_compute. reflexivity.
Defined.

(** C8.  Every request makes exactly one call to the hosted model, and
    that call carries the fixed generation configuration (temperature the
    binary64 value of 0.2, at most 4096 output tokens) and the fixed
    safety settings, whose four categories all have the threshold
    BLOCK_NONE. *)
Theorem llm_call_configuration (float_repr : spec_float -> str)
    (generate_content : llm_call -> result GenerateContentResponse)
    (data : PatientData) (w : world) :
  exists c,
    llm_calls (snd (analyze_patient_endpoint float_repr generate_content data w))
    = llm_calls w ++ [c]
    /\ call_generation_config c = generation_config
    /\ call_safety_settings c = safety_settings_config
    /\ temperature generation_config = decimal_float 2 10
    /\ max_output_tokens generation_config = 4096%Z
    /\ map category safety_settings_config
       = [U "HARM_CATEGORY_HARASSMENT"; U "HARM_CATEGORY_HATE_SPEECH";
          U "HARM_CATEGORY_SEXUALLY_EXPLICIT"; U "HARM_CATEGORY_DANGEROUS_CONTENT"]
    /\ Forall (fun s => threshold s = U "BLOCK_NONE") safety_settings_config.
Proof.
  exists (analyze_call (rendered float_repr data)).
  split.
  - rewrite analyze_endpoint_eq, analyze_try_eq.
    destruct (generate_content (analyze_call (rendered float_repr data)))
      as [response|e]; [destruct (text response) as [t|e]|];
      cbn [snd llm_calls after_call]; reflexivity.
  - split; [reflexivity|]. split; [reflexivity|].
    split; [vm_compute; reflexivity|]. split; [reflexivity|].
    split; [vm_compute; reflexivity|].
    repeat constructor.
Qed.

(** C9.  When the credential is absent from the environment, importing
    the module does not raise: the configuration block prints one warning
    line, no credential is configured, and the module goes on to build
    the application with its two routes and the model handle. *)
Theorem missing_key_is_a_warning (getenv : str -> option str) (w : world) :
  getenv (U "GOOGLE_API_KEY") = None ->
  exists app,
    main_module getenv w
    = (Ok app,
       {| stdout := stdout w ++ [missing_key_warning];
          llm_calls := llm_calls w;
          configured_api_key := configured_api_key w |})
    /\ app_routes app = [("POST"%string, U "/analyze"); ("GET"%string, U "/")]
    /\ app_model app = model.
Proof.
  intros H. eexists. unfold main_module, configure_gemini, bind, try_except.
  rewrite H. cbn [py_not]. unfold raise, print, ret. cbn [stdout llm_calls
    configured_api_key str_of_exn].
  split; [reflexivity|]. split; reflexivity.
Qed.

Lemma missing_key_is_a_warning_witness :
  exists app,
    main_module (fun _ => None) w0
    = (Ok app,
       {| stdout := [missing_key_warning];
          llm_calls := [];
          configured_api_key := None |})
    /\ app_model app = model.
Proof.
  destruct (missing_key_is_a_warning (fun _ => None) w0 eq_refl)
    as [app [H1 [_ H3]]].
  exists app. split; [exact H1|exact H3].
Defined.

End ServiceClaims.

(** ** Further properties of the parser *)

Module ParserExtras.

Import ParserFacts StripFacts StripMore HeaderFacts SectionFacts.

Lemma contains_refl (s : str) : contains s s.
Proof. exists [], []. now rewrite app_nil_r. Qed.

Lemma contains_trans (s t u : str) :
  contains s t -> contains t u -> contains s u.
Proof.
  intros [l1 [r1 ->]] [l2 [r2 ->]].
  exists (l1 ++ l2), (r2 ++ r1). now rewrite <- !app_assoc.
Qed.

Lemma contains_firstn_skipn (t : str) (n m : nat) :
  contains t (firstn n (skipn m t)).
Proof.
  exists (firstn m t), (skipn n (skipn m t)).
  now rewrite firstn_skipn, firstn_skipn.
Qed.

Lemma contains_clean (g : str) : contains g (clean g).
Proof.
  destruct (clean_trims g) as [l [t [E _]]]. now exists l, t.
Qed.

Lemma cleaned_from_reply (text ph : str) (o : option str) :
  (forall g, o = Some g -> contains text g) ->
  from_reply text ph (cleaned o ph).
Proof.
  intros H. destruct o as [g|]; [right|now left].
  cbn [cleaned]. apply (contains_trans text g); [now apply H|apply contains_clean].
Qed.

Lemma parse_try_eq (text : str) (w : world) :
  parse_try (fun p t f => ret (Re.search p t f)) text w = (Ok (parsed text), w).
Proof.
  unfold parse_try. rewrite !bind_ret.
  change pattern_analisis with (lazy_pattern header1 header2).
  change pattern_justificacion with (lazy_pattern header2 header3).
  change pattern_acciones with (greedy_pattern header3).
  rewrite !clean_or_lazy, clean_or_greedy, !bind_ret.
  reflexivity.
Qed.

(** X1.  On every reply the parser returns without raising and without
    printing -- the body of its [try] itself returns, so the fallback of
    the [except] branch is never produced -- and each field is either its
    placeholder or a contiguous piece of the reply. *)
Theorem parse_fields_come_from_reply (text : str) (w : world) :
  exists r,
    parse_gemini_response text w = (Ok r, w)
    /\ parse_try (fun p t f => ret (Re.search p t f)) text w = (Ok r, w)
    /\ from_reply text placeholder_analisis (analisis_breve r)
    /\ from_reply text placeholder_justificacion (justificacion r)
    /\ from_reply text placeholder_acciones (acciones_sugeridas r).
Proof.
  exists (parsed text).
  split; [apply parse_gemini_response_eq|]. split.
  - apply parse_try_eq.
  - unfold parsed. cbn [analisis_breve justificacion acciones_sugeridas].
    repeat split; apply cleaned_from_reply; intros g Hg.
    + unfold captured_lazy in Hg.
      destruct (find_header parse_flags header1 text); [|discriminate].
      injection Hg as <-. apply contains_firstn_skipn.
    + unfold captured_lazy in Hg.
      destruct (find_header parse_flags header2 text); [|discriminate].
      injection Hg as <-. apply contains_firstn_skipn.
    + unfold captured_greedy in Hg.
      destruct (find_header parse_flags header3 text) as [i|]; [|discriminate].
      injection Hg as <-.
      exists (firstn (i + length header3) text), [].
      now rewrite app_nil_r, firstn_skipn.
Qed.

(** X2.  The third field depends on header 3 alone: whatever comes before
    its first occurrence, and whatever headers follow it, the field is the
    cleaned text from there to the end of the reply. *)
Theorem acciones_is_all_after_header3 (pre rest : str) (w : world) :
  none_before header3 (pre ++ header3 ++ rest) (length pre) ->
  exists r,
    parse_gemini_response (pre ++ header3 ++ rest) w = (Ok r, w)
    /\ acciones_sugeridas r = clean rest.
Proof.
  intros H. exists (parsed (pre ++ header3 ++ rest)).
  split; [apply parse_gemini_response_eq|].
  unfold parsed. cbn [acciones_sugeridas].
  now rewrite (captured_greedy_after _ _ header3_self H).
Qed.

Lemma acciones_is_all_after_header3_witness :
  exists r,
    parse_gemini_response
      (U "x" ++ header3 ++ U " b " ++ header1 ++ U " a") w0 = (Ok r, w0)
    /\ acciones_sugeridas r = clean (U " b " ++ header1 ++ U " a").
Proof.
  apply (acciones_is_all_after_header3 (U "x") (U " b " ++ header1 ++ U " a") w0).
  apply none_before_by_search. vm_compute. reflexivity.
Defined.

(** A lazy section: from the first occurrence of its header to the next
    occurrence of the closing header after it. *)
Lemma captured_lazy_local (h next pre a post : str) :
  starts_with parse_flags h h = true ->
  starts_with parse_flags next next = true ->
  none_before h (pre ++ h ++ a ++ next ++ post) (length pre) ->
  none_before next (a ++ next ++ post) (length a) ->
  captured_lazy h next (pre ++ h ++ a ++ next ++ post) = Some a.
Proof.
  intros Hh Hn H1 H2. unfold captured_lazy.
  rewrite find_header_first with (n := length pre).
  - cbn zeta. rewrite app_assoc, <- length_app, skipn_app_exact.
    rewrite until_header_first with (n := length a).
    + now rewrite firstn_app_exact.
    + intros m Hm. apply (none_before_false H2 Hm).
    + rewrite length_app. lia.
    + left. rewrite skipn_app_exact. now apply starts_with_app.
  - intros m Hm. apply (none_before_false H1 Hm).
  - now apply occurs_at_here.
Qed.

(** X3.  The first field depends on header 1 and the header 2 that
    follows it alone: when header 1 first occurs after [pre] and the text
    [a] after it reaches a header 2 with no earlier header 2 inside, the
    field is [a] cleaned -- wherever header 3 is, and whatever stands
    before header 1 or after that header 2. *)
Theorem analisis_is_up_to_next_header2 (pre a post : str) (w : world) :
  none_before header1 (pre ++ header1 ++ a ++ header2 ++ post) (length pre) ->
  none_before header2 (a ++ header2 ++ post) (length a) ->
  exists r,
    parse_gemini_response (pre ++ header1 ++ a ++ header2 ++ post) w = (Ok r, w)
    /\ analisis_breve r = clean a.
Proof.
  intros H1 H2. exists (parsed (pre ++ header1 ++ a ++ header2 ++ post)).
  split; [apply parse_gemini_response_eq|].
  unfold parsed. cbn [analisis_breve].
  now rewrite (captured_lazy_local header1 header2 pre a post
                 header1_self header2_self H1 H2).
Qed.

(** Header 2 and header 3 come first, then header 1 and its section. *)
Lemma analisis_is_up_to_next_header2_witness :
  exists r,
    parse_gemini_response
      ((header2 ++ U " j " ++ header3 ++ U " c ") ++ header1 ++ U " a "
       ++ header2 ++ U " k") w0 = (Ok r, w0)
    /\ analisis_breve r = clean (U " a ").
Proof.
  apply (analisis_is_up_to_next_header2
           (header2 ++ U " j " ++ header3 ++ U " c ") (U " a ") (U " k") w0).
  - apply none_before_by_search. vm_compute. reflexivity.
  - apply none_before_by_search. vm_compute. reflexivity.
Defined.

(** X4.  The second field depends on header 2 and the header 3 that
    follows it alone. *)
Theorem justificacion_is_up_to_next_header3 (pre j post : str) (w : world) :
  none_before header2 (pre ++ header2 ++ j ++ header3 ++ post) (length pre) ->
  none_before header3 (j ++ header3 ++ post) (length j) ->
  exists r,
    parse_gemini_response (pre ++ header2 ++ j ++ header3 ++ post) w = (Ok r, w)
    /\ justificacion r = clean j.
Proof.
  intros H1 H2. exists (parsed (pre ++ header2 ++ j ++ header3 ++ post)).
  split; [apply parse_gemini_response_eq|].
  unfold parsed. cbn [justificacion].
  now rewrite (captured_lazy_local header2 header3 pre j post
                 header2_self header3_self H1 H2).
Qed.

(** Header 3 comes first, then header 2 and its section. *)
Lemma justificacion_is_up_to_next_header3_witness :
  exists r,
    parse_gemini_response
      ((header3 ++ U " c ") ++ header2 ++ U " (j) " ++ header3 ++ U " d") w0
    = (Ok r, w0)
    /\ justificacion r = clean (U " (j) ").
Proof.
  apply (justificacion_is_up_to_next_header3
           (header3 ++ U " c ") (U " (j) ") (U " d") w0).
  - apply none_before_by_search. vm_compute. reflexivity.
  - apply none_before_by_search. vm_compute. reflexivity.
Defined.

(** X5.  A reply with one header only: its section runs from the first
    occurrence of the header to the end of the reply, and the two other
    fields are their placeholders. *)
Theorem parse_one_section (k : section_id) (pre x : str) (w : world) :
  none_before (header_of k) (pre ++ header_of k ++ x) (length pre) ->
  others_absent k (pre ++ header_of k ++ x) ->
  parse_gemini_response (pre ++ header_of k ++ x) w
  = (Ok (parsed_one_section k x), w).
Proof.
  intros H1 Ho. rewrite parse_gemini_response_eq. f_equal.
  unfold parsed, parsed_one_section.
  destruct k; cbn [header_of others_absent] in *; destruct Ho as [Ha Hb].
  - rewrite (captured_lazy_to_end (next := header2) pre x header1_self H1 Ha).
    rewrite (captured_lazy_absent header3 Ha), (captured_greedy_absent Hb).
    reflexivity.
  - rewrite (captured_lazy_absent header2 Ha).
    rewrite (captured_lazy_to_end (next := header3) pre x header2_self H1 Hb).
    rewrite (captured_greedy_absent Hb). reflexivity.
  - rewrite (captured_lazy_absent header2 Ha), (captured_lazy_absent header3 Hb).
    rewrite (captured_greedy_after _ _ header3_self H1). reflexivity.
Qed.

Lemma parse_one_section_witness :
  parse_gemini_response (U "Nota: " ++ header_of Justificacion ++ U " (lactato) ") w0
  = (Ok (parsed_one_section Justificacion (U " (lactato) ")), w0).
Proof.
  apply (parse_one_section Justificacion (U "Nota: ") (U " (lactato) ") w0).
  - apply none_before_by_search. vm_compute. reflexivity.
  - split; apply absent_by_search; vm_compute; reflexivity.
Defined.

Lemma clean_of_space (g : str) : forallb py_isspace g = true -> clean g = [].
Proof.
  intros H. unfold clean, strip, strip_by.
  rewrite (lstrip_by_all py_isspace g H). reflexivity.
Qed.

(** X6.  A header with nothing but white space after it gives an empty
    field, not the placeholder: a reply that ends at header 3, or goes on
    with blanks and new lines only, has the empty string as its third
    field. *)
Theorem blank_section_is_empty (pre rest : str) (w : world) :
  none_before header3 (pre ++ header3 ++ rest) (length pre) ->
  forallb py_isspace rest = true ->
  exists r,
    parse_gemini_response (pre ++ header3 ++ rest) w = (Ok r, w)
    /\ acciones_sugeridas r = []
    /\ acciones_sugeridas r <> placeholder_acciones.
Proof.
  intros H Hs. exists (parsed (pre ++ header3 ++ rest)).
  split; [apply parse_gemini_response_eq|].
  unfold parsed. cbn [acciones_sugeridas].
  rewrite (captured_greedy_after _ _ header3_self H). cbn [cleaned].
  rewrite (clean_of_space rest Hs). split; [reflexivity|discriminate].
Qed.

Lemma blank_section_is_empty_witness :
  exists r,
    parse_gemini_response (U "fin " ++ header3 ++ [32; 10; 9]%N) w0 = (Ok r, w0)
    /\ acciones_sugeridas r = [].
Proof.
  destruct (blank_section_is_empty (U "fin ") [32; 10; 9]%N w0) as [r [H1 [H2 _]]].
  - apply none_before_by_search. vm_compute. reflexivity.
  - reflexivity.
  - exists r. split; [exact H1|exact H2].
Defined.

End ParserExtras.

(** ** Further properties of the renderer, the endpoint and start-up *)

Module ServiceExtras.

Import ParserFacts FormatFacts PromptClaims ServiceClaims.

Local Open Scope N_scope.

Lemma unescape_escape_char (c : char) (b : str) (s : str) :
  unescape b = Some s -> unescape (escape_char c ++ b) = Some (c :: s).
Proof.
  intros H. unfold escape_char.
  destruct (c =? 92) eqn:E92.
  { apply N.eqb_eq in E92. subst. cbn. now rewrite H. }
  destruct (c =? 34) eqn:E34.
  { apply N.eqb_eq in E34. subst. cbn. now rewrite H. }
  destruct (c =? 8) eqn:E8.
  { apply N.eqb_eq in E8. subst. cbn. now rewrite H. }
  destruct (c =? 12) eqn:E12.
  { apply N.eqb_eq in E12. subst. cbn. now rewrite H. }
  destruct (c =? 10) eqn:E10.
  { apply N.eqb_eq in E10. subst. cbn. now rewrite H. }
  destruct (c =? 13) eqn:E13.
  { apply N.eqb_eq in E13. subst. cbn. now rewrite H. }
  destruct (c =? 9) eqn:E9.
  { apply N.eqb_eq in E9. subst. cbn. now rewrite H. }
  destruct (c <? 32) eqn:E32.
  { apply N.ltb_lt in E32. cbn [app unescape].
    change (92 =? 92) with true. change (117 =? 117) with true. cbv iota.
    rewrite (JsonFacts.hex4_below_32 c E32). now rewrite H. }
  cbn [app unescape]. rewrite E92.
  assert (Eu : unescaped c = true).
  { unfold unescaped. rewrite E34, E92. apply N.ltb_ge in E32.
    apply N.leb_le in E32. now rewrite E32. }
  now rewrite Eu, H.
Qed.

Lemma unescape_escaped (s : str) : unescape (flat_map escape_char s) = Some s.
Proof.
  induction s as [|c s IH]; [reflexivity|].
  cbn [flat_map]. now apply unescape_escape_char.
Qed.

(** X7.  The escaping of [json.dumps] loses nothing: reading the text of
    an encoded string back gives the string, whatever characters it holds
    (quotes, backslashes, control characters, non-ASCII text). *)
Theorem encode_basestring_round_trip (s : str) :
  decode_basestring (encode_basestring s) = Some s.
Proof.
  unfold encode_basestring, dquote, decode_basestring. cbn [app].
  rewrite last_last, removelast_last. cbn [N.eqb Pos.eqb andb].
  apply unescape_escaped.
Qed.

Section Endpoint.

Variable float_repr : spec_float -> str.
Variable generate_content : llm_call -> result GenerateContentResponse.

(** X8.  The success path composes the three stages: when the hosted model
    answers and its text can be read, the endpoint answers 200 with what
    the parser makes of that text, after one call with the rendered
    prompt and without printing. *)
Theorem analyze_success (data : PatientData) (prompt : str)
    (response : GenerateContentResponse) (t : str) (w : world) :
  render_prompt float_repr data = Ok prompt ->
  generate_content (analyze_call prompt) = Ok response ->
  text response = Ok t ->
  exists body,
    analyze_patient_endpoint float_repr generate_content data w
    = (Ok (Response200 body), after_call w prompt [])
    /\ parse_gemini_response t w = (Ok body, w).
Proof.
  intros Hp Hg Ht. rewrite render_prompt_eq in Hp. injection Hp as <-.
  exists (parsed t). split; [|apply parse_gemini_response_eq].
  now rewrite analyze_endpoint_eq, analyze_try_eq, Hg, Ht.
Qed.

(** X9.  A reply whose text cannot be read (the [.text] accessor raises,
    as for a blocked reply) is answered like a failed call: status 500
    with the message of the exception, after the one call and one printed
    line. *)
Theorem unreadable_reply_is_500 (data : PatientData) (prompt : str)
    (response : GenerateContentResponse) (e : exn) (w : world) :
  render_prompt float_repr data = Ok prompt ->
  generate_content (analyze_call prompt) = Ok response ->
  text response = Raise e ->
  analyze_patient_endpoint float_repr generate_content data w
  = (Ok (ResponseError 500 (U "Error al procesar la solicitud: " ++ str_of_exn e)),
     after_call w prompt
       [U "Error en el endpoint /analyze_patient: " ++ str_of_exn e]).
Proof.
  intros Hp Hg Ht. rewrite render_prompt_eq in Hp. injection Hp as <-.
  rewrite analyze_endpoint_eq, analyze_try_eq, Hg, Ht.
  unfold after_call. cbn [stdout llm_calls configured_api_key].
  now rewrite app_nil_r.
Qed.

End Endpoint.

Lemma analyze_success_witness :
  exists body,
    analyze_patient_endpoint example_repr
      (fun _ => Ok {| text := Ok (three_sections [] (U " alto ") (U " lactato ")
                                                 (U " cultivos ")) |})
      example_data w0
    = (Ok (Response200 body), after_call w0 (rendered example_repr example_data) [])
    /\ parse_gemini_response
         (three_sections [] (U " alto ") (U " lactato ") (U " cultivos ")) w0
       = (Ok body, w0).
Proof.
  apply (analyze_success example_repr
           (fun _ => Ok {| text := Ok (three_sections [] (U " alto ")
                                         (U " lactato ") (U " cultivos ")) |})
           example_data (rendered example_repr example_data)
           {| text := Ok (three_sections [] (U " alto ") (U " lactato ")
                                         (U " cultivos ")) |}
           (three_sections [] (U " alto ") (U " lactato ") (U " cultivos ")) w0).
  - apply render_prompt_eq.
  - reflexivity.
  - reflexivity.
Defined.

Lemma unreadable_reply_is_500_witness :
  analyze_patient_endpoint example_repr
    (fun _ => Ok {| text := Raise (Exception "ValueError" (U "blocked")) |})
    example_data w0
  = (Ok (ResponseError 500
           (U "Error al procesar la solicitud: "
            ++ str_of_exn (Exception "ValueError" (U "blocked")))),
     after_call w0 (rendered example_repr example_data)
       [U "Error en el endpoint /analyze_patient: "
        ++ str_of_exn (Exception "ValueError" (U "blocked"))]).
Proof.
  apply (unreadable_reply_is_500 example_repr
           (fun _ => Ok {| text := Raise (Exception "ValueError" (U "blocked")) |})
           example_data (rendered example_repr example_data)
           {| text := Raise (Exception "ValueError" (U "blocked")) |}
           (Exception "ValueError" (U "blocked")) w0).
  - apply render_prompt_eq.
  - reflexivity.
  - reflexivity.
Defined.

(** X11.  With a non-empty credential in the environment the
    configuration block hands it to the client library and prints
    nothing. *)
Theorem key_is_configured (getenv : str -> option str) (c : char) (key : str)
    (w : world) :
  getenv (U "GOOGLE_API_KEY") = Some (c :: key) ->
  exists app,
    main_module getenv w
    = (Ok app,
       {| stdout := stdout w;
          llm_calls := llm_calls w;
          configured_api_key := Some (c :: key) |})
    /\ app_model app = model.
Proof.
  intros H. eexists. unfold main_module, configure_gemini, bind, try_except.
  rewrite H. cbn [py_not]. unfold genai_configure, ret.
  split; reflexivity.
Qed.

Lemma key_is_configured_witness :
  exists app,
    main_module (fun _ => Some (U "AIza")) w0
    = (Ok app,
       {| stdout := []; llm_calls := []; configured_api_key := Some (U "AIza") |})
    /\ app_model app = model.
Proof.
  exact (key_is_configured (fun _ => Some (U "AIza")) 65 (U "Iza") w0 eq_refl).
Defined.

(** X12.  An empty credential counts as a missing one: the same warning
    line is printed, nothing is configured, and the module goes on. *)
Theorem empty_key_is_a_warning (getenv : str -> option str) (w : world) :
  getenv (U "GOOGLE_API_KEY") = Some [] ->
  exists app,
    main_module getenv w
    = (Ok app,
       {| stdout := stdout w ++ [missing_key_warning];
          llm_calls := llm_calls w;
          configured_api_key := configured_api_key w |})
    /\ app_model app = model.
Proof.
  intros H. eexists. unfold main_module, configure_gemini, bind, try_except.
  rewrite H. cbn [py_not]. unfold raise, print, ret.
  cbn [stdout llm_calls configured_api_key str_of_exn].
  split; reflexivity.
Qed.

Lemma empty_key_is_a_warning_witness :
  exists app,
    main_module (fun _ => Some []) w0
    = (Ok app,
       {| stdout := [missing_key_warning];
          llm_calls := [];
          configured_api_key := None |})
    /\ app_model app = model.
Proof.
  exact (empty_key_is_a_warning (fun _ => Some []) w0 eq_refl).
Defined.

End ServiceExtras.

(** ** Further properties of the template *)

Module TemplateExtras.

Import FormatFacts PromptClaims.

(** X13.  Rendering never fails, whatever the fields of the patient hold
    (braces included, since values are not scanned again): the prompt is
    the text of the template with each of its fourteen fields replaced by
    the value of the keyword argument of that name, and the template uses
    every keyword argument once, in the order they are passed. *)
Theorem render_prompt_fills_template (float_repr : spec_float -> str)
    (data : PatientData) :
  render_prompt float_repr data
  = Ok (flat_map (segment_out float_repr (prompt_kwargs float_repr data))
                 prompt_segments)
  /\ template_text prompt_segments = prompt_base
  /\ field_names prompt_segments = map fst (prompt_kwargs float_repr data).
Proof.
  split; [apply render_prompt_eq|]. split; [apply prompt_segments_text|].
  vm_compute. reflexivity.
Qed.

Lemma fill_unbound (float_repr : spec_float -> str)
    (kwargs : list (str * pyval)) (segs : list segment) (n : str) :
  In n (field_names segs) -> kw_get kwargs n = None ->
  exists m,
    fill float_repr kwargs segs = Raise (key_error m)
    /\ In m (field_names segs) /\ kw_get kwargs m = None.
Proof.
  induction segs as [|seg segs IH]; intros Hin Hn; [destruct Hin|].
  destruct seg as [s|k]; cbn [field_names flat_map fill] in *.
  - cbn [app] in Hin. destruct (IH Hin Hn) as [m [E [Hm Hk]]].
    exists m. rewrite E. cbn [prepend app]. repeat split; assumption.
  - destruct (kw_get kwargs k) as [v|] eqn:Ek.
    + destruct Hin as [->|Hin]; [congruence|].
      destruct (IH Hin Hn) as [m [E [Hm Hk]]].
      exists m. rewrite E. cbn [prepend app].
      split; [reflexivity|]. split; [now right|assumption].
    + exists k. cbn [app].
      split; [reflexivity|]. split; [now left|assumption].
Qed.

Lemma template_names_repr :
  forallb (fun n => eqb_str (py_repr n) ([39] ++ n ++ [39])%N)
          (field_names prompt_segments) = true.
Proof. vm_compute. reflexivity. Qed.

(** X14.  Every field of the template needs its keyword argument: if one
    of the fourteen names is not bound, formatting the template raises a
    [KeyError] whose text is the name of an unbound field between single
    quotes, as [str] of a [KeyError] shows its key. *)
Theorem format_needs_every_keyword (float_repr : spec_float -> str)
    (kwargs : list (str * pyval)) (n : str) :
  In n (field_names prompt_segments) -> kw_get kwargs n = None ->
  exists m,
    format float_repr prompt_base kwargs
    = Raise (Exception "KeyError" ([39] ++ m ++ [39])%N)
    /\ In m (field_names prompt_segments) /\ kw_get kwargs m = None.
Proof.
  intros Hin Hn. unfold format. rewrite <- prompt_segments_text.
  rewrite (format_scan_segments _ _ _ prompt_segments_ok).
  destruct (fill_unbound float_repr kwargs prompt_segments n Hin Hn)
    as [m [E [Hm Hk]]].
  exists m. split; [|split; assumption].
  rewrite E. unfold key_error. f_equal. f_equal.
  pose proof template_names_repr as Hall. rewrite forallb_forall in Hall.
  now apply eqb_str_eq, Hall.
Qed.

Lemma format_needs_every_keyword_witness :
  exists m,
    format example_repr prompt_base [(U "LACTATO", VInt 3)]
    = Raise (Exception "KeyError" ([39] ++ m ++ [39])%N)
    /\ In m (field_names prompt_segments)
    /\ kw_get [(U "LACTATO", VInt 3)] m = None.
Proof.
  apply (format_needs_every_keyword example_repr [(U "LACTATO", VInt 3)] (U "PCR")).
  - apply In_by_eqb. vm_compute. reflexivity.
  - reflexivity.
Defined.

End TemplateExtras.

(** ** Cleaning and surrounding white space *)

Module CleanExtras.

Import StripFacts StripMore ParserExtras.

(** X15.  White space around a section does not count: putting blanks or
    new lines before and after a text leaves what the cleaning makes of it
    unchanged. *)
Theorem clean_ignores_surrounding_space (l g r : str) :
  forallb py_isspace l = true -> forallb py_isspace r = true ->
  clean (l ++ g ++ r) = clean g.
Proof.
  intros Hl Hr. unfold clean, strip.
  now rewrite (strip_by_surrounded py_isspace l g r Hl Hr).
Qed.

Lemma clean_ignores_surrounding_space_witness :
  clean ([10; 32]%N ++ U "(Riesgo alto)" ++ [32; 10; 10]%N) = clean (U "(Riesgo alto)").
Proof.
  apply (clean_ignores_surrounding_space [10; 32]%N (U "(Riesgo alto)") [32; 10; 10]%N);
    reflexivity.
Defined.

End CleanExtras.
